(** * Ticket issuance and marketplace ledger

    A shallow embedding of the three Solidity contracts of the ticketing
    system (EventRegistry, TicketNFT, TicketMarket) and the proofs of the
    properties stated about them.

    Modelling conventions.
    - [uint256], [uint64], [uint32], [uint16], [uint8] and [address] values
      are integers ([Z]); checked arithmetic (Solidity 0.8) reverts with
      [Panic 0x11] when a result leaves the range of its type, explicit
      casts wrap around.
    - a [mapping] is a [gmap] read through [sload], which returns the zero
      value of the value type for an absent key.
    - contract functions run in a state-and-revert monad [M] that also
      records the effects performed (storage writes, emitted events, ether
      transfers, receiver callbacks) in program order.  A transaction
      ([transact]) commits the state of a successful run and discards the
      state of a reverted one.
    - the OpenZeppelin base contracts are not part of the repository; the
      functions the contracts use from them (ERC721 [_ownerOf], [ownerOf],
      [_safeMint], [transferFrom]; Ownable) are modelled after
      OpenZeppelin Contracts v5.  ERC721 bookkeeping that no function of
      the repository reads (balances, approvals) and ether balances are
      left out.
    - two calls leave the system: the [onERC721Received] callback of
      [_safeMint] and the ether [transfer] to a seller.  Their outcome is
      supplied by the environment ([receiver_ok], [payee_ok]); a callee
      that reverts with data has that data forwarded as the error of the
      call ([receiver_reason], [payee_reason]), as the ERC721 receiver
      check and [transfer] do.  Every
      entry point of the market is [nonReentrant], so a callback cannot
      run one of them; what it can run on the registry or the token
      contract does not interfere with the rest of the call and is
      covered as transactions of their own.  The flag of [nonReentrant]
      itself is therefore not part of the state.
    - [block.timestamp] is an input of every call; where a property needs
      it, block timestamps are taken to be positive and to fit 64 bits
      ([valid_block]). *)

From Stdlib Require Import ZArith Lia.
From stdpp Require Import base gmap strings list.

Open Scope Z_scope.

Abbreviation address := Z (only parsing).

(** ** Zero values and mappings *)

Class Zero (A : Type) := zero : A.
Global Instance Z_zero : Zero Z := 0.
Global Instance bool_zero : Zero bool := false.
Global Instance string_zero : Zero string := EmptyString.

Definition sload `{Countable K} {V} `{Zero V} (m : gmap K V) (k : K) : V :=
  default zero (m !! k).

Lemma sload_empty `{Countable K} {V} `{Zero V} (k : K) :
  sload (∅ : gmap K V) k = zero.
Proof. unfold sload. by rewrite lookup_empty. Qed.

Lemma sload_insert_eq `{Countable K} {V} `{Zero V} (m : gmap K V) k v :
  sload (<[k:=v]> m) k = v.
Proof. unfold sload. by rewrite lookup_insert_eq. Qed.

Lemma sload_insert_ne `{Countable K} {V} `{Zero V} (m : gmap K V) k k' v :
  k ≠ k' → sload (<[k:=v]> m) k' = sload m k'.
Proof. intros. unfold sload. by rewrite lookup_insert_ne. Qed.

(** ** Integer types *)

Definition uint_max (bits : Z) : Z := 2 ^ bits - 1.
Definition in_uint (bits : Z) (x : Z) : Prop := 0 <= x <= uint_max bits.
Definition in_uintb (bits : Z) (x : Z) : bool :=
  (0 <=? x) && (x <=? uint_max bits).
(** [uint64(x)]: an explicit narrowing cast truncates. *)
Definition cast_uint (bits : Z) (x : Z) : Z := x mod 2 ^ bits.

Lemma in_uintb_spec bits x : in_uintb bits x = true ↔ in_uint bits x.
Proof. unfold in_uintb, in_uint. rewrite andb_true_iff. lia. Qed.

(** ** Reverts and effects *)

Inductive Error :=
| Require (reason : string)   (* require(cond, "reason") failed *)
| Panic (code : Z)            (* compiler-inserted check, 0x11 = overflow *)
| Custom (name : string).     (* custom error of a base contract *)

Global Instance Error_eq_dec : EqDecision Error.
Proof. solve_decision. Defined.

Inductive Arg := AInt (z : Z) | AStr (s : string) | ABool (b : bool).

Inductive Effect :=
| SStore (var : string) (keys : list Z)     (* write to a state variable *)
| Emit (event : string) (args : list Arg)   (* emit Event(args) *)
| SendEther (to : address) (amount : Z)     (* payable(to).transfer(amount) *)
| ReceiverCheck (to : address) (tokenId : Z). (* onERC721Received callback *)

Global Instance Arg_eq_dec : EqDecision Arg.
Proof. solve_decision. Defined.
Global Instance Effect_eq_dec : EqDecision Effect.
Proof. solve_decision. Defined.

(** ** The execution monad *)

Inductive Result (S A : Type) : Type :=
| Ok (a : A) (s : S) (tr : list Effect)
| Revert (e : Error) (s : S) (tr : list Effect).
Arguments Ok {S A} a s tr.
Arguments Revert {S A} e s tr.

Definition M (S A : Type) : Type := S → Result S A.

Definition ret {S A} (a : A) : M S A := λ s, Ok a s [].

Definition bind {S A B} (m : M S A) (k : A → M S B) : M S B :=
  λ s, match m s with
       | Ok a s1 tr1 =>
           match k a s1 with
           | Ok b s2 tr2 => Ok b s2 (tr1 ++ tr2)
           | Revert e s2 tr2 => Revert e s2 (tr1 ++ tr2)
           end
       | Revert e s1 tr1 => Revert e s1 tr1
       end.

Global Instance M_ret S : MRet (M S) := λ A, @ret S A.
Global Instance M_bind S : MBind (M S) := λ A B k m, @bind S A B m k.

Definition revert {S A} (e : Error) : M S A := λ s, Revert e s [].
Definition require {S} (cond : bool) (reason : string) : M S unit :=
  if cond then ret tt else revert (Require reason).
Definition gets {S A} (f : S → A) : M S A := λ s, Ok (f s) s [].
Definition sstore {S} (var : string) (keys : list Z) (f : S → S) : M S unit :=
  λ s, Ok tt (f s) [SStore var keys].
Definition emit {S} (event : string) (args : list Arg) : M S unit :=
  λ s, Ok tt s [Emit event args].
Definition effect {S} (e : Effect) : M S unit := λ s, Ok tt s [e].
Definition when {S} (cond : bool) (m : M S unit) : M S unit :=
  if cond then m else ret tt.

(** Checked arithmetic of Solidity 0.8 on a [bits]-wide unsigned type. *)
Definition checked {S} (bits : Z) (x : Z) : M S Z :=
  if in_uintb bits x then ret x else revert (Panic 17).

(** Running a function of one contract inside a larger state. *)
Definition zoom {W S A} (proj : W → S) (inj : S → W → W) (m : M S A) : M W A :=
  λ w, match m (proj w) with
       | Ok a s tr => Ok a (inj s w) tr
       | Revert e s tr => Revert e (inj s w) tr
       end.

(** A transaction commits on success and rolls back on revert. *)
Inductive Receipt (A : Type) : Type :=
| Success (a : A) (tr : list Effect)
| Failure (e : Error).
Arguments Success {A} a tr.
Arguments Failure {A} e.

Definition transact {S A} (m : M S A) (s : S) : S * Receipt A :=
  match m s with
  | Ok a s' tr => (s', Success a tr)
  | Revert e _ _ => (s, Failure e)
  end.

Definition succeeded {A} (r : Receipt A) : bool :=
  match r with Success _ _ => true | Failure _ => false end.

(** The call environment: [msg.sender], [msg.value], [block.timestamp] and
    the outcomes of the two calls that leave the system. *)
Record Env := {
  sender : address;
  value : Z;
  now : Z;
  receiver_ok : bool;  (* the token receiver accepts (onERC721Received) *)
  receiver_reason : option Error;
    (* the revert data of a receiver that reverts, which is forwarded;
       [None]: it reverted without data or returned another value *)
  payee_ok : bool;     (* the payee accepts the ether transfer *)
  payee_reason : option Error
    (* the revert data of a payee that reverts, which is forwarded *)
}.

(** ** EventRegistry *)

Module EventRegistry.

Record EventData := {
  id : Z;
  name : string;
  date : Z;
  location : string;
  basePriceWei : Z;
  maxResaleFactor : Z;      (* uint8 *)
  totalTickets : Z;
  metadataCid : string;
  organizer : address;
  active : bool;
  maxTicketsPerWallet : Z;  (* uint16 *)
  walletCooldown : Z        (* uint32 *)
}.

Global Instance EventData_zero : Zero EventData :=
  {| id := 0; name := ""; date := 0; location := ""; basePriceWei := 0;
     maxResaleFactor := 0; totalTickets := 0; metadataCid := "";
     organizer := 0; active := false; maxTicketsPerWallet := 0;
     walletCooldown := 0 |}.

Definition set_active (b : bool) (e : EventData) : EventData :=
  {| id := id e; name := name e; date := date e; location := location e;
     basePriceWei := basePriceWei e; maxResaleFactor := maxResaleFactor e;
     totalTickets := totalTickets e; metadataCid := metadataCid e;
     organizer := organizer e; active := b;
     maxTicketsPerWallet := maxTicketsPerWallet e;
     walletCooldown := walletCooldown e |}.

Record State := {
  owner : address;
  nextEventId : Z;
  events : gmap Z EventData;
  _validators : gmap (Z * address) bool
}.

Definition set_owner (a : address) (s : State) : State :=
  {| owner := a; nextEventId := nextEventId s; events := events s;
     _validators := _validators s |}.
Definition set_nextEventId (n : Z) (s : State) : State :=
  {| owner := owner s; nextEventId := n; events := events s;
     _validators := _validators s |}.
Definition set_events (f : gmap Z EventData → gmap Z EventData) (s : State) : State :=
  {| owner := owner s; nextEventId := nextEventId s; events := f (events s);
     _validators := _validators s |}.
Definition set_validators (f : gmap (Z * address) bool → gmap (Z * address) bool)
    (s : State) : State :=
  {| owner := owner s; nextEventId := nextEventId s; events := events s;
     _validators := f (_validators s) |}.

Definition constructor (initialOwner : address) : State :=
  {| owner := initialOwner; nextEventId := 0; events := ∅; _validators := ∅ |}.

Definition createEvent (sender : address) (name : string) (date : Z)
    (location : string) (basePriceWei maxResaleFactor totalTickets : Z)
    (metadataCid : string) (maxTicketsPerWallet walletCooldown : Z)
    : M State Z :=
  require (0 <? Z.of_nat (String.length name)) "Nombre obligatorio";;
  require (0 <? basePriceWei) "Precio base > 0";;
  require (0 <? totalTickets) "Total tickets > 0";;
  require (100 <=? maxResaleFactor) "Factor de reventa minimo 100%";;
  when (0 <? maxTicketsPerWallet)
    (require (maxTicketsPerWallet <=? totalTickets) "Limite por cartera > total");;
  eventId ← gets nextEventId;
  next ← checked 256 (eventId + 1);
  sstore "nextEventId" [] (set_nextEventId next);;
  sstore "events" [eventId] (set_events (insert eventId
    {| id := eventId; name := name; date := date; location := location;
       basePriceWei := basePriceWei; maxResaleFactor := maxResaleFactor;
       totalTickets := totalTickets; metadataCid := metadataCid;
       organizer := sender; active := true;
       maxTicketsPerWallet := maxTicketsPerWallet;
       walletCooldown := walletCooldown |}));;
  emit "EventCreated"
    [AInt eventId; AInt sender; AStr name; AInt date; AStr location;
     AInt basePriceWei; AInt maxResaleFactor; AInt totalTickets;
     AStr metadataCid; AInt maxTicketsPerWallet; AInt walletCooldown];;
  mret eventId.

Definition getEvent (s : State) (eventId : Z) : EventData :=
  sload (events s) eventId.

Definition setEventActive (sender : address) (eventId : Z) (flag : bool)
    : M State unit :=
  evt ← gets (λ s, getEvent s eventId);
  require (negb (organizer evt =? 0)) "Evento inexistente";;
  own ← gets owner;
  require ((sender =? organizer evt) || (sender =? own)) "Solo organizer u owner";;
  sstore "events.active" [eventId] (set_events (insert eventId (set_active flag evt)));;
  emit "EventStatusChanged" [AInt eventId; ABool flag].

Definition setValidator (sender : address) (eventId : Z) (validator : address)
    (isActive : bool) : M State unit :=
  evt ← gets (λ s, getEvent s eventId);
  require (negb (organizer evt =? 0)) "Evento inexistente";;
  own ← gets owner;
  require ((sender =? organizer evt) || (sender =? own)) "Solo organizer u owner";;
  require (negb (validator =? 0)) "Validador no valido";;
  sstore "_validators" [eventId; validator]
    (set_validators (insert (eventId, validator) isActive));;
  emit "ValidatorSet" [AInt eventId; AInt validator; ABool isActive].

Definition isValidator (s : State) (eventId : Z) (account : address) : bool :=
  sload (_validators s) (eventId, account).

Definition isOrganizerOrValidator (s : State) (eventId : Z) (account : address)
    : bool :=
  let evt := getEvent s eventId in
  if organizer evt =? 0 then false
  else if account =? organizer evt then true
  else sload (_validators s) (eventId, account).

(** Ownable (OpenZeppelin v5). *)
Definition transferOwnership (sender newOwner : address) : M State unit :=
  own ← gets owner;
  (if sender =? own then ret tt else revert (Custom "OwnableUnauthorizedAccount"));;
  (if newOwner =? 0 then revert (Custom "OwnableInvalidOwner") else ret tt);;
  sstore "_owner" [] (set_owner newOwner);;
  emit "OwnershipTransferred" [AInt own; AInt newOwner].

Definition renounceOwnership (sender : address) : M State unit :=
  own ← gets owner;
  (if sender =? own then ret tt else revert (Custom "OwnableUnauthorizedAccount"));;
  sstore "_owner" [] (set_owner 0);;
  emit "OwnershipTransferred" [AInt own; AInt 0].

End EventRegistry.

(** ** TicketNFT *)

Module TicketNFT.

Inductive TicketState := None | Valid | Used | Cancelled.

Global Instance TicketState_eq_dec : EqDecision TicketState.
Proof. solve_decision. Defined.
Global Instance TicketState_zero : Zero TicketState := None.

Definition state_code (t : TicketState) : Z :=
  match t with None => 0 | Valid => 1 | Used => 2 | Cancelled => 3 end.

Record State := {
  owner : address;
  _nextTokenId : Z;
  ticketState : gmap Z TicketState;
  ticketEvent : gmap Z Z;
  _owners : gmap Z address;     (* ERC721: tokenId => owner *)
  eventRegistry : address;
  market : address
}.

Definition set_owner (a : address) (s : State) : State :=
  {| owner := a; _nextTokenId := _nextTokenId s; ticketState := ticketState s;
     ticketEvent := ticketEvent s; _owners := _owners s;
     eventRegistry := eventRegistry s; market := market s |}.
Definition set_nextTokenId (n : Z) (s : State) : State :=
  {| owner := owner s; _nextTokenId := n; ticketState := ticketState s;
     ticketEvent := ticketEvent s; _owners := _owners s;
     eventRegistry := eventRegistry s; market := market s |}.
Definition set_ticketState (f : gmap Z TicketState → gmap Z TicketState)
    (s : State) : State :=
  {| owner := owner s; _nextTokenId := _nextTokenId s;
     ticketState := f (ticketState s);
     ticketEvent := ticketEvent s; _owners := _owners s;
     eventRegistry := eventRegistry s; market := market s |}.
Definition set_ticketEvent (f : gmap Z Z → gmap Z Z) (s : State) : State :=
  {| owner := owner s; _nextTokenId := _nextTokenId s;
     ticketState := ticketState s; ticketEvent := f (ticketEvent s);
     _owners := _owners s;
     eventRegistry := eventRegistry s; market := market s |}.
Definition set_owners (f : gmap Z address → gmap Z address) (s : State) : State :=
  {| owner := owner s; _nextTokenId := _nextTokenId s;
     ticketState := ticketState s; ticketEvent := ticketEvent s;
     _owners := f (_owners s);
     eventRegistry := eventRegistry s; market := market s |}.
Definition set_market (a : address) (s : State) : State :=
  {| owner := owner s; _nextTokenId := _nextTokenId s;
     ticketState := ticketState s; ticketEvent := ticketEvent s;
     _owners := _owners s;
     eventRegistry := eventRegistry s; market := a |}.

Definition constructor (initialOwner _eventRegistry : address) : State :=
  {| owner := initialOwner; _nextTokenId := 0; ticketState := ∅;
     ticketEvent := ∅; _owners := ∅; eventRegistry := _eventRegistry;
     market := 0 |}.

(** The public getters of the two mappings. *)
Definition get_ticketState (s : State) (tokenId : Z) : TicketState :=
  sload (ticketState s) tokenId.
Definition get_ticketEvent (s : State) (tokenId : Z) : Z :=
  sload (ticketEvent s) tokenId.

Definition onlyOwner (sender : address) : M State unit :=
  own ← gets owner;
  if sender =? own then ret tt else revert (Custom "OwnableUnauthorizedAccount").

Definition onlyMarket (sender : address) : M State unit :=
  mkt ← gets market;
  require (sender =? mkt) "Solo el mercado puede llamar".

Definition setMarket (sender : address) (_market : address) : M State unit :=
  onlyOwner sender;;
  require (negb (_market =? 0)) "Market cero";;
  mkt ← gets market;
  require (mkt =? 0) "Market ya asignado";;
  sstore "market" [] (set_market _market);;
  emit "MarketSet" [AInt _market].

(** ERC721 (OpenZeppelin v5), with [_isAuthorized] as overridden here. *)
Definition _ownerOf (s : State) (tokenId : Z) : address :=
  sload (_owners s) tokenId.

Definition ownerOf (tokenId : Z) : M State address :=
  o ← gets (λ s, _ownerOf s tokenId);
  if o =? 0 then revert (Custom "ERC721NonexistentToken") else mret o.

Definition _isAuthorized (s : State) (owner spender : address) (tokenId : Z)
    : bool :=
  spender =? market s.

Definition _checkAuthorized (owner spender : address) (tokenId : Z)
    : M State unit :=
  ok ← gets (λ s, _isAuthorized s owner spender tokenId);
  if (ok : bool) then ret tt
  else if owner =? 0 then revert (Custom "ERC721NonexistentToken")
  else revert (Custom "ERC721InsufficientApproval").

Definition _update (to : address) (tokenId : Z) (auth : address)
    : M State address :=
  from ← gets (λ s, _ownerOf s tokenId);
  when (negb (auth =? 0)) (_checkAuthorized from auth tokenId);;
  sstore "_owners" [tokenId] (set_owners (insert tokenId to));;
  emit "Transfer" [AInt from; AInt to; AInt tokenId];;
  mret from.

Definition _safeMint (to : address) (tokenId : Z) (receiver_ok : bool)
    (receiver_reason : option Error)
    : M State unit :=
  (if to =? 0 then revert (Custom "ERC721InvalidReceiver") else ret tt);;
  previousOwner ← _update to tokenId 0;
  (if previousOwner =? 0 then ret tt else revert (Custom "ERC721InvalidSender"));;
  effect (ReceiverCheck to tokenId);;
  if receiver_ok then ret tt
  else revert (default (Custom "ERC721InvalidReceiver") receiver_reason).

Definition transferFrom (sender from to : address) (tokenId : Z)
    : M State unit :=
  (if to =? 0 then revert (Custom "ERC721InvalidReceiver") else ret tt);;
  previousOwner ← _update to tokenId sender;
  if previousOwner =? from then ret tt
  else revert (Custom "ERC721IncorrectOwner").

Definition mintTicket (sender to : address) (eventId : Z) (receiver_ok : bool)
    (receiver_reason : option Error)
    : M State Z :=
  onlyMarket sender;;
  n ← gets _nextTokenId;
  tokenId ← checked 256 (n + 1);
  sstore "_nextTokenId" [] (set_nextTokenId tokenId);;
  _safeMint to tokenId receiver_ok receiver_reason;;
  sstore "ticketEvent" [tokenId] (set_ticketEvent (insert tokenId eventId));;
  sstore "ticketState" [tokenId] (set_ticketState (insert tokenId Valid));;
  emit "TicketMinted" [AInt tokenId; AInt eventId; AInt to];;
  emit "TicketStateChanged" [AInt tokenId; AInt (state_code Valid)];;
  mret tokenId.

Definition markUsed (sender : address) (tokenId : Z) : M State unit :=
  onlyMarket sender;;
  o ← gets (λ s, _ownerOf s tokenId);
  require (negb (o =? 0)) "Token no existe";;
  st ← gets (λ s, get_ticketState s tokenId);
  require (bool_decide (st = Valid)) "Ticket no valido para marcar como usado";;
  sstore "ticketState" [tokenId] (set_ticketState (insert tokenId Used));;
  emit "TicketStateChanged" [AInt tokenId; AInt (state_code Used)].

Definition transferOwnership (sender newOwner : address) : M State unit :=
  onlyOwner sender;;
  (if newOwner =? 0 then revert (Custom "OwnableInvalidOwner") else ret tt);;
  own ← gets owner;
  sstore "_owner" [] (set_owner newOwner);;
  emit "OwnershipTransferred" [AInt own; AInt newOwner].

Definition renounceOwnership (sender : address) : M State unit :=
  onlyOwner sender;;
  own ← gets owner;
  sstore "_owner" [] (set_owner 0);;
  emit "OwnershipTransferred" [AInt own; AInt 0].

End TicketNFT.

(** ** TicketMarket *)

Module TicketMarket.

Record Listing := {
  tokenId : Z;
  seller : address;
  priceWei : Z;
  active : bool
}.

Record BuyerState := {
  bought : Z;      (* uint256 *)
  lastBuyTs : Z    (* uint64 *)
}.

Global Instance Listing_zero : Zero Listing :=
  {| tokenId := 0; seller := 0; priceWei := 0; active := false |}.
Global Instance BuyerState_zero : Zero BuyerState :=
  {| bought := 0; lastBuyTs := 0 |}.

Definition set_active (b : bool) (l : Listing) : Listing :=
  {| tokenId := tokenId l; seller := seller l; priceWei := priceWei l;
     active := b |}.
Definition set_bought (n : Z) (b : BuyerState) : BuyerState :=
  {| bought := n; lastBuyTs := lastBuyTs b |}.
Definition set_lastBuyTs (t : Z) (b : BuyerState) : BuyerState :=
  {| bought := bought b; lastBuyTs := t |}.

Record State := {
  this : address;      (* address(this) *)
  owner : address;
  nextListingId : Z;
  listings : gmap Z Listing;
  mintedTicketsPerEvent : gmap Z Z;
  buyerState : gmap (Z * address) BuyerState
}.

Definition set_owner (a : address) (s : State) : State :=
  {| this := this s; owner := a; nextListingId := nextListingId s;
     listings := listings s;
     mintedTicketsPerEvent := mintedTicketsPerEvent s;
     buyerState := buyerState s |}.
Definition set_nextListingId (n : Z) (s : State) : State :=
  {| this := this s; owner := owner s; nextListingId := n;
     listings := listings s;
     mintedTicketsPerEvent := mintedTicketsPerEvent s;
     buyerState := buyerState s |}.
Definition set_listings (f : gmap Z Listing → gmap Z Listing) (s : State) : State :=
  {| this := this s; owner := owner s; nextListingId := nextListingId s;
     listings := f (listings s);
     mintedTicketsPerEvent := mintedTicketsPerEvent s;
     buyerState := buyerState s |}.
Definition set_minted (f : gmap Z Z → gmap Z Z) (s : State) : State :=
  {| this := this s; owner := owner s; nextListingId := nextListingId s;
     listings := listings s;
     mintedTicketsPerEvent := f (mintedTicketsPerEvent s);
     buyerState := buyerState s |}.
Definition set_buyerState
    (f : gmap (Z * address) BuyerState → gmap (Z * address) BuyerState)
    (s : State) : State :=
  {| this := this s; owner := owner s; nextListingId := nextListingId s;
     listings := listings s;
     mintedTicketsPerEvent := mintedTicketsPerEvent s;
     buyerState := f (buyerState s) |}.

Definition constructor (self initialOwner : address) : State :=
  {| this := self; owner := initialOwner; nextListingId := 0; listings := ∅;
     mintedTicketsPerEvent := ∅; buyerState := ∅ |}.

(** The three contracts together; [eventRegistry] and [ticketNFT] of the
    market refer to the first two components. *)
Record Ledger := {
  registry : EventRegistry.State;
  nft : TicketNFT.State;
  market : State
}.

Definition set_registry (r : EventRegistry.State) (w : Ledger) : Ledger :=
  {| registry := r; nft := nft w; market := market w |}.
Definition set_nft (n : TicketNFT.State) (w : Ledger) : Ledger :=
  {| registry := registry w; nft := n; market := market w |}.
Definition set_market (m : State) (w : Ledger) : Ledger :=
  {| registry := registry w; nft := nft w; market := m |}.
Definition upd_market (f : State → State) (w : Ledger) : Ledger :=
  set_market (f (market w)) w.

Definition onRegistry {A} (m : M EventRegistry.State A) : M Ledger A :=
  zoom registry set_registry m.
Definition onNFT {A} (m : M TicketNFT.State A) : M Ledger A :=
  zoom nft set_nft m.
Definition onMarket {A} (m : M State A) : M Ledger A :=
  zoom market set_market m.

(** Public getters. *)
Definition get_listing (w : Ledger) (listingId : Z) : Listing :=
  sload (listings (market w)) listingId.
Definition get_minted (w : Ledger) (eventId : Z) : Z :=
  sload (mintedTicketsPerEvent (market w)) eventId.
Definition get_buyerState (w : Ledger) (eventId : Z) (wallet : address)
    : BuyerState :=
  sload (buyerState (market w)) (eventId, wallet).
Definition getEvent (w : Ledger) (eventId : Z) : EventRegistry.EventData :=
  EventRegistry.getEvent (registry w) eventId.

Definition buyPrimary (env : Env) (eventId : Z) : M Ledger unit :=
  evt ← gets (λ w, getEvent w eventId);
  require (negb (EventRegistry.organizer evt =? 0)) "Evento inexistente";;
  require (EventRegistry.active evt) "Evento inactivo";;
  require (now env <? EventRegistry.date evt) "Evento ya paso";;
  require (value env =? EventRegistry.basePriceWei evt) "Precio incorrecto";;
  minted ← gets (λ w, get_minted w eventId);
  require (minted <? EventRegistry.totalTickets evt)
    "No quedan tickets disponibles";;
  st ← gets (λ w, get_buyerState w eventId (sender env));
  when (0 <? EventRegistry.maxTicketsPerWallet evt)
    (b1 ← checked 256 (bought st + 1);
     require (b1 <=? EventRegistry.maxTicketsPerWallet evt)
       "Limite de tickets por cartera alcanzado");;
  when ((0 <? EventRegistry.walletCooldown evt) && negb (lastBuyTs st =? 0))
    (ready ← checked 64 (lastBuyTs st + EventRegistry.walletCooldown evt);
     require (ready <=? now env) "Debes esperar antes de volver a comprar");;
  minted1 ← checked 256 (minted + 1);
  sstore "mintedTicketsPerEvent" [eventId]
    (upd_market (set_minted (insert eventId minted1)));;
  self ← gets (λ w, this (market w));
  tokenId ← onNFT (TicketNFT.mintTicket self (sender env) eventId
                     (receiver_ok env) (receiver_reason env));
  st1 ← gets (λ w, get_buyerState w eventId (sender env));
  bought1 ← checked 256 (bought st1 + 1);
  sstore "buyerState.bought" [eventId; sender env]
    (upd_market (set_buyerState (insert (eventId, sender env) (set_bought bought1 st1))));;
  st2 ← gets (λ w, get_buyerState w eventId (sender env));
  sstore "buyerState.lastBuyTs" [eventId; sender env]
    (upd_market (set_buyerState (insert (eventId, sender env)
       (set_lastBuyTs (cast_uint 64 (now env)) st2))));;
  emit "PrimaryTicketBought"
    [AInt tokenId; AInt eventId; AInt (sender env); AInt (value env)].

Definition listForResale (env : Env) (tokenId priceWei : Z) : M Ledger unit :=
  o ← onNFT (TicketNFT.ownerOf tokenId);
  require (o =? sender env) "No eres el dueno del ticket";;
  ts ← gets (λ w, TicketNFT.get_ticketState (nft w) tokenId);
  require (bool_decide (ts = TicketNFT.Valid)) "Ticket no valido";;
  require (0 <? priceWei) "Precio debe ser > 0";;
  eventId ← gets (λ w, TicketNFT.get_ticketEvent (nft w) tokenId);
  evt ← gets (λ w, getEvent w eventId);
  require (negb (EventRegistry.organizer evt =? 0)) "Evento inexistente";;
  require (EventRegistry.active evt) "Evento inactivo";;
  require (now env <? EventRegistry.date evt) "Evento ya paso";;
  product ← checked 256
    (EventRegistry.basePriceWei evt * EventRegistry.maxResaleFactor evt);
  let maxPrice := product / 100 in
  require (priceWei <=? maxPrice) "Sobrepasa el maximo de reventa";;
  self ← gets (λ w, this (market w));
  onNFT (TicketNFT.transferFrom self (sender env) self tokenId);;
  listingId ← gets (λ w, nextListingId (market w));
  next ← checked 256 (listingId + 1);
  sstore "nextListingId" [] (upd_market (set_nextListingId next));;
  sstore "listings" [listingId]
    (upd_market (set_listings (insert listingId
       {| tokenId := tokenId; seller := sender env; priceWei := priceWei;
          active := true |})));;
  emit "TicketListed"
    [AInt listingId; AInt tokenId; AInt (sender env); AInt priceWei].

Definition buyFromResale (env : Env) (listingId : Z) : M Ledger unit :=
  lst ← gets (λ w, get_listing w listingId);
  require (active lst) "Listing inactiva";;
  require (negb (seller lst =? 0)) "Listing inexistente";;
  require (value env =? priceWei lst) "Precio incorrecto";;
  eventId ← gets (λ w, TicketNFT.get_ticketEvent (nft w) (tokenId lst));
  evt ← gets (λ w, getEvent w eventId);
  require (negb (EventRegistry.organizer evt =? 0)) "Evento inexistente";;
  require (EventRegistry.active evt) "Evento inactivo";;
  require (now env <? EventRegistry.date evt) "Evento ya paso";;
  sstore "listings.active" [listingId]
    (upd_market (set_listings (insert listingId (set_active false lst))));;
  effect (SendEther (seller lst) (value env));;
  (if payee_ok env then ret tt
   else revert (default (Custom "TransferFailed") (payee_reason env)));;
  self ← gets (λ w, this (market w));
  onNFT (TicketNFT.transferFrom self self (sender env) (tokenId lst));;
  emit "ResaleTicketBought"
    [AInt listingId; AInt (tokenId lst); AInt (sender env); AInt (value env)].

Definition markTicketUsed (env : Env) (tokenId : Z) : M Ledger unit :=
  eventId ← gets (λ w, TicketNFT.get_ticketEvent (nft w) tokenId);
  evt ← gets (λ w, getEvent w eventId);
  require (negb (EventRegistry.organizer evt =? 0)) "Evento inexistente";;
  isVal ← gets (λ w, EventRegistry.isValidator (registry w) eventId (sender env));
  own ← gets (λ w, owner (market w));
  let autorizado :=
    (sender env =? EventRegistry.organizer evt) || isVal || (sender env =? own) in
  require autorizado "No autorizado para validar";;
  self ← gets (λ w, this (market w));
  onNFT (TicketNFT.markUsed self tokenId);;
  emit "TicketUsed" [AInt tokenId; AInt eventId; AInt (sender env)].

Definition transferOwnership (sender newOwner : address) : M State unit :=
  own ← gets owner;
  (if sender =? own then ret tt else revert (Custom "OwnableUnauthorizedAccount"));;
  (if newOwner =? 0 then revert (Custom "OwnableInvalidOwner") else ret tt);;
  sstore "_owner" [] (set_owner newOwner);;
  emit "OwnershipTransferred" [AInt own; AInt newOwner].

Definition renounceOwnership (sender : address) : M State unit :=
  own ← gets owner;
  (if sender =? own then ret tt else revert (Custom "OwnableUnauthorizedAccount"));;
  sstore "_owner" [] (set_owner 0);;
  emit "OwnershipTransferred" [AInt own; AInt 0].

End TicketMarket.

(** ** The ledger as a transition system *)

Import TicketMarket.

Inductive Call :=
| CreateEvent (name : string) (date : Z) (location : string)
    (basePriceWei maxResaleFactor totalTickets : Z) (metadataCid : string)
    (maxTicketsPerWallet walletCooldown : Z)
| SetEventActive (eventId : Z) (flag : bool)
| SetValidator (eventId : Z) (validator : address) (isActive : bool)
| RegistryTransferOwnership (newOwner : address)
| RegistryRenounceOwnership
| SetMarket (_market : address)
| MintTicket (to : address) (eventId : Z)
| MarkUsed (tokenId : Z)
| TransferFrom (from to : address) (tokenId : Z)
| NftTransferOwnership (newOwner : address)
| NftRenounceOwnership
| BuyPrimary (eventId : Z)
| ListForResale (tokenId priceWei : Z)
| BuyFromResale (listingId : Z)
| MarkTicketUsed (tokenId : Z)
| MarketTransferOwnership (newOwner : address)
| MarketRenounceOwnership.

Definition dispatch (env : Env) (c : Call) : M Ledger unit :=
  match c with
  | CreateEvent name date location basePriceWei maxResaleFactor totalTickets
      metadataCid maxTicketsPerWallet walletCooldown =>
      onRegistry (EventRegistry.createEvent (sender env) name date location
        basePriceWei maxResaleFactor totalTickets metadataCid
        maxTicketsPerWallet walletCooldown);; ret tt
  | SetEventActive eventId flag =>
      onRegistry (EventRegistry.setEventActive (sender env) eventId flag)
  | SetValidator eventId validator isActive =>
      onRegistry (EventRegistry.setValidator (sender env) eventId validator isActive)
  | RegistryTransferOwnership newOwner =>
      onRegistry (EventRegistry.transferOwnership (sender env) newOwner)
  | RegistryRenounceOwnership =>
      onRegistry (EventRegistry.renounceOwnership (sender env))
  | SetMarket _market => onNFT (TicketNFT.setMarket (sender env) _market)
  | MintTicket to eventId =>
      onNFT (TicketNFT.mintTicket (sender env) to eventId
               (receiver_ok env) (receiver_reason env));; ret tt
  | MarkUsed tokenId => onNFT (TicketNFT.markUsed (sender env) tokenId)
  | TransferFrom from to tokenId =>
      onNFT (TicketNFT.transferFrom (sender env) from to tokenId)
  | NftTransferOwnership newOwner =>
      onNFT (TicketNFT.transferOwnership (sender env) newOwner)
  | NftRenounceOwnership => onNFT (TicketNFT.renounceOwnership (sender env))
  | BuyPrimary eventId => buyPrimary env eventId
  | ListForResale tokenId priceWei => listForResale env tokenId priceWei
  | BuyFromResale listingId => buyFromResale env listingId
  | MarkTicketUsed tokenId => markTicketUsed env tokenId
  | MarketTransferOwnership newOwner =>
      onMarket (TicketMarket.transferOwnership (sender env) newOwner)
  | MarketRenounceOwnership =>
      onMarket (TicketMarket.renounceOwnership (sender env))
  end.

Record Tx := { tx_env : Env; tx_call : Call }.

Definition step (w : Ledger) (tx : Tx) : Ledger :=
  fst (transact (dispatch (tx_env tx) (tx_call tx)) w).

Definition receipt (w : Ledger) (tx : Tx) : Receipt unit :=
  snd (transact (dispatch (tx_env tx) (tx_call tx)) w).

Fixpoint run (w : Ledger) (txs : list Tx) : Ledger :=
  match txs with
  | [] => w
  | tx :: rest => run (step w tx) rest
  end.

(** Deployment: the three constructors, with their [require]s. *)
Record Deployment := {
  registry_owner : address;
  registry_address : address;
  nft_owner : address;
  nft_address : address;
  market_owner : address;
  market_address : address
}.

Definition deploy (d : Deployment) : option Ledger :=
  if (registry_owner d =? 0) || (nft_owner d =? 0) || (market_owner d =? 0)
     || (registry_address d =? 0) || (nft_address d =? 0)
  then @Datatypes.None Ledger
  else Some
    {| registry := EventRegistry.constructor (registry_owner d);
       nft := TicketNFT.constructor (nft_owner d) (registry_address d);
       market := TicketMarket.constructor (market_address d) (market_owner d) |}.

Definition reachable (w : Ledger) : Prop :=
  ∃ d w0 txs, deploy d = Some w0 ∧ w = run w0 txs.

(** ** Reasoning about executions *)

(** Unfold the monad and the contract functions, leaving the tests of the
    code as the only stuck terms. *)
Ltac mred :=
  cbv beta iota zeta delta
    [mbind mret M_bind M_ret bind ret require revert gets sstore emit effect
     when checked zoom onRegistry onNFT onMarket app
     EventRegistry.createEvent EventRegistry.setEventActive
     EventRegistry.setValidator EventRegistry.transferOwnership
     EventRegistry.renounceOwnership
     TicketNFT.onlyOwner TicketNFT.onlyMarket TicketNFT.setMarket
     TicketNFT.ownerOf TicketNFT._checkAuthorized TicketNFT._update
     TicketNFT._safeMint TicketNFT.transferFrom TicketNFT.mintTicket
     TicketNFT.markUsed TicketNFT.transferOwnership
     TicketNFT.renounceOwnership
     buyPrimary listForResale buyFromResale markTicketUsed
     TicketMarket.transferOwnership TicketMarket.renounceOwnership
     dispatch
     get_listing get_minted get_buyerState getEvent EventRegistry.getEvent
     EventRegistry.isValidator TicketNFT.get_ticketState
     TicketNFT.get_ticketEvent TicketNFT._ownerOf TicketNFT._isAuthorized].

(** Fields read through the setters just applied. *)
Ltac mproj :=
  cbn [registry nft market set_registry set_nft set_market upd_market
       EventRegistry.owner EventRegistry.nextEventId EventRegistry.events
       EventRegistry._validators EventRegistry.set_owner
       EventRegistry.set_nextEventId EventRegistry.set_events
       EventRegistry.set_validators
       TicketNFT.owner TicketNFT._nextTokenId TicketNFT.ticketState
       TicketNFT.ticketEvent TicketNFT._owners TicketNFT.eventRegistry
       TicketNFT.market TicketNFT.set_owner TicketNFT.set_nextTokenId
       TicketNFT.set_ticketState TicketNFT.set_ticketEvent
       TicketNFT.set_owners TicketNFT.set_market
       this owner nextListingId listings mintedTicketsPerEvent buyerState
       set_owner set_nextListingId set_listings set_minted set_buyerState
       tokenId seller priceWei active bought lastBuyTs
       TicketMarket.set_active set_bought set_lastBuyTs
       EventRegistry.id EventRegistry.name EventRegistry.date
       EventRegistry.location EventRegistry.basePriceWei
       EventRegistry.maxResaleFactor EventRegistry.totalTickets
       EventRegistry.metadataCid EventRegistry.organizer EventRegistry.active
       EventRegistry.maxTicketsPerWallet EventRegistry.walletCooldown
       EventRegistry.set_active
       tx_env tx_call fst snd] in *.

(** The public getters as reads of the mappings. *)
Ltac getters :=
  unfold get_listing, get_minted, get_buyerState, getEvent,
    EventRegistry.getEvent, EventRegistry.isValidator,
    TicketNFT.get_ticketState, TicketNFT.get_ticketEvent,
    TicketNFT._ownerOf, TicketNFT._isAuthorized in *.

(** Case analysis along the control flow of a run that is known to have
    returned. *)
Ltac mcases :=
  repeat match goal with
  | |- context [if ?c then _ else _] => destruct c eqn:?; try discriminate
  end.

(** From [H : f args w = Ok a w' tr]: the tests passed on the way, with
    [w'] and [tr] replaced by what the run computed. *)
Ltac exec H :=
  getters; revert H; mred; mproj; mcases;
  let E := fresh "E" in intros E; inversion E; subst; clear E; mproj.

(** Reading a mapping after a write: same key or another one. *)
Ltac sload_cases :=
  repeat match goal with
  | |- context [sload (<[?k:=_]> _) ?k'] =>
      first
        [ rewrite sload_insert_eq
        | rewrite sload_insert_ne by (congruence || lia)
        | destruct (decide (k = k')); simplify_eq;
          [rewrite sload_insert_eq | rewrite sload_insert_ne by done] ]
  | H : context [sload (<[?k:=_]> _) ?k'] |- _ =>
      first
        [ rewrite sload_insert_eq in H
        | rewrite sload_insert_ne in H by (congruence || lia)
        | destruct (decide (k = k')); simplify_eq;
          [rewrite sload_insert_eq in H | rewrite sload_insert_ne in H by done] ]
  end.

(** One transaction: either it reverted and the ledger is the same, or it
    is one of the calls and returned. *)
Ltac step_cases w tx :=
  let env := fresh "env" in
  let c := fresh "c" in
  let H := fresh "Hexec" in
  destruct tx as [env c]; unfold step, receipt, transact; mproj;
  destruct (dispatch env c w) as [[] ? ?|? ? ?] eqn:H; mproj;
  [destruct c; exec H | ].

(** Boolean tests of the code as propositions. *)
Ltac bprop :=
  repeat match goal with
  | H : negb _ = true |- _ => apply negb_true_iff in H
  | H : negb _ = false |- _ => apply negb_false_iff in H
  | H : (_ && _) = true |- _ => apply andb_true_iff in H; destruct H
  | H : (_ || _) = false |- _ => apply orb_false_iff in H; destruct H
  | H : (_ <? _) = true |- _ => apply Z.ltb_lt in H
  | H : (_ <? _) = false |- _ => apply Z.ltb_ge in H
  | H : (_ <=? _) = true |- _ => apply Z.leb_le in H
  | H : (_ <=? _) = false |- _ => apply Z.leb_gt in H
  | H : (_ =? _) = true |- _ => apply Z.eqb_eq in H
  | H : (_ =? _) = false |- _ => apply Z.eqb_neq in H
  | H : bool_decide _ = true |- _ => apply bool_decide_eq_true in H
  | H : bool_decide _ = false |- _ => apply bool_decide_eq_false in H
  | H : in_uintb _ _ = true |- _ => apply in_uintb_spec in H; unfold in_uint in H
  | H : in_uintb _ _ = false |- _ =>
      apply not_true_iff_false in H; rewrite in_uintb_spec in H;
      unfold in_uint in H
  end.

Lemma run_app w txs1 txs2 : run w (txs1 ++ txs2) = run (run w txs1) txs2.
Proof. revert w. induction txs1 as [|tx txs1 IH]; intros w; simpl; [done | apply IH]. Qed.

Lemma run_invariant (P : Ledger → Prop) :
  (∀ w tx, P w → P (step w tx)) → ∀ txs w, P w → P (run w txs).
Proof.
  intros Hstep txs. induction txs as [|tx txs IH]; intros w Hw; simpl; [done|].
  apply IH, Hstep, Hw.
Qed.

Lemma reachable_invariant (P : Ledger → Prop) :
  (∀ d w0, deploy d = Some w0 → P w0) →
  (∀ w tx, P w → P (step w tx)) →
  ∀ w, reachable w → P w.
Proof.
  intros Hinit Hstep w (d & w0 & txs & Hd & ->).
  apply run_invariant; [done | by eapply Hinit].
Qed.

Lemma reachable_run w txs : reachable w → reachable (run w txs).
Proof.
  intros (d & w0 & txs0 & Hd & ->). exists d, w0, (txs0 ++ txs).
  split; [done | by rewrite run_app].
Qed.

Lemma deploy_inv d w0 :
  deploy d = Some w0 →
  w0 = {| registry := EventRegistry.constructor (registry_owner d);
          nft := TicketNFT.constructor (nft_owner d) (registry_address d);
          market := TicketMarket.constructor (market_address d) (market_owner d) |}.
Proof. unfold deploy. destruct (_ || _); [done | congruence]. Qed.

(** ** Structural invariants *)

(** Event ids are handed out in sequence; an id not yet handed out holds
    no event, no minted ticket and no purchase. *)
Record inv_events (w : Ledger) : Prop := {
  next_event_nonneg : 0 <= EventRegistry.nextEventId (registry w);
  event_fresh : ∀ e, ¬ (0 <= e < EventRegistry.nextEventId (registry w)) →
    EventRegistry.organizer (getEvent w e) = 0;
  minted_absent : ∀ e, EventRegistry.organizer (getEvent w e) = 0 →
    get_minted w e = 0;
  minted_capacity : ∀ e,
    0 <= get_minted w e <= EventRegistry.totalTickets (getEvent w e);
  bought_absent : ∀ e a, EventRegistry.organizer (getEvent w e) = 0 →
    get_buyerState w e a = zero;
  bought_limit : ∀ e a, 0 < EventRegistry.maxTicketsPerWallet (getEvent w e) →
    bought (get_buyerState w e a) <= EventRegistry.maxTicketsPerWallet (getEvent w e);
  bought_nonneg : ∀ e a, 0 <= bought (get_buyerState w e a)
}.

Lemma inv_events_deploy d w0 : deploy d = Some w0 → inv_events w0.
Proof.
  intros ->%deploy_inv. split; getters; mproj; simpl; intros;
    rewrite ?sload_empty; try done.
Qed.

Lemma inv_events_step w tx : inv_events w → inv_events (step w tx).
Proof.
  intros [Hn He Hm Hc Hb Hl Hp]. getters.
  assert (Hfresh : EventRegistry.organizer
    (sload (EventRegistry.events (registry w))
       (EventRegistry.nextEventId (registry w))) = 0) by (apply He; lia).
  pose proof (Hm _ Hfresh) as Hm0.
  pose proof (λ a, Hb _ a Hfresh) as Hb0.
  step_cases w tx; try (by split); bprop.
  all: split; getters; mproj; intros; sload_cases; mproj; eauto; try lia.
  all: try (apply He; lia).
  all: try (rewrite Hm0; lia).
  all: try (rewrite Hb0; cbn; lia).
Qed.

Lemma inv_events_reachable w : reachable w → inv_events w.
Proof.
  apply reachable_invariant; [apply inv_events_deploy | apply inv_events_step].
Qed.

(** The configuration of an event is everything but its [active] flag. *)
Definition config (e : EventRegistry.EventData) : EventRegistry.EventData :=
  EventRegistry.set_active false e.

Lemma event_config_step w tx e :
  inv_events w → EventRegistry.organizer (getEvent w e) ≠ 0 →
  config (getEvent (step w tx) e) = config (getEvent w e).
Proof.
  intros [Hn He _ _ _ _ _] Hex. unfold config. getters.
  assert (0 <= e < EventRegistry.nextEventId (registry w)).
  { destruct (decide (0 <= e < EventRegistry.nextEventId (registry w))); [done|].
    by apply He in n. }
  step_cases w tx; try done; bprop; sload_cases; try done; lia.
Qed.

Lemma event_config_run txs : ∀ w e,
  inv_events w → EventRegistry.organizer (getEvent w e) ≠ 0 →
  config (getEvent (run w txs) e) = config (getEvent w e).
Proof.
  induction txs as [|tx txs IH]; intros w e Hinv Hex; simpl; [done|].
  pose proof (event_config_step w tx e Hinv Hex) as Hs.
  rewrite IH; [done | by apply inv_events_step |].
  apply (f_equal EventRegistry.organizer) in Hs. cbn in Hs. congruence.
Qed.

(** Ticket ids are handed out in sequence from 1; exactly the ids handed
    out carry a state, which is [Valid] or [Used], and have an owner. *)
Definition minted_ticket (s : TicketNFT.State) (t : Z) : Prop :=
  1 <= t <= TicketNFT._nextTokenId s.

Record inv_tickets (s : TicketNFT.State) : Prop := {
  next_token_nonneg : 0 <= TicketNFT._nextTokenId s;
  ticket_unminted : ∀ t, ¬ minted_ticket s t →
    TicketNFT.get_ticketState s t = TicketNFT.None;
  ticket_minted : ∀ t, minted_ticket s t →
    (TicketNFT.get_ticketState s t = TicketNFT.Valid ∨
     TicketNFT.get_ticketState s t = TicketNFT.Used) ∧
    TicketNFT._ownerOf s t ≠ 0
}.

Lemma inv_tickets_deploy d w0 : deploy d = Some w0 → inv_tickets (nft w0).
Proof.
  intros ->%deploy_inv. split; unfold minted_ticket; getters; mproj; simpl;
    intros; rewrite ?sload_empty; try done; lia.
Qed.

Lemma inv_tickets_step w tx : inv_tickets (nft w) → inv_tickets (nft (step w tx)).
Proof.
  intros [Hn Hu Hm]. unfold minted_ticket in *. getters.
  step_cases w tx; try (by split); bprop.
  all: split; unfold minted_ticket; getters; mproj; intros; sload_cases;
    mproj; eauto; try lia.
  all: try (apply Hu; lia).
  all: try (split; [by eauto | ]; try done; apply Hm; lia).
  all: try (apply Hm; lia).
  all: try (split; [apply Hm; lia | done]).
  all: exfalso; match goal with H : ¬ _ |- _ => apply Hu in H; congruence end.
Qed.

Lemma inv_tickets_reachable w : reachable w → inv_tickets (nft w).
Proof.
  apply (reachable_invariant (λ w, inv_tickets (nft w)));
    [apply inv_tickets_deploy | apply inv_tickets_step].
Qed.

(** Listing ids are handed out in sequence; an id not yet handed out is
    not an active listing. *)
Record inv_listings (w : Ledger) : Prop := {
  next_listing_nonneg : 0 <= nextListingId (market w);
  listing_fresh : ∀ l, ¬ (0 <= l < nextListingId (market w)) →
    active (get_listing w l) = false
}.

Lemma inv_listings_deploy d w0 : deploy d = Some w0 → inv_listings w0.
Proof.
  intros ->%deploy_inv. split; getters; mproj; simpl; intros;
    rewrite ?sload_empty; done.
Qed.

Lemma inv_listings_step w tx : inv_listings w → inv_listings (step w tx).
Proof.
  intros [Hn Hf]. getters.
  step_cases w tx; try (by split); bprop.
  all: split; getters; mproj; intros; sload_cases; mproj; eauto; try lia.
  all: try (apply Hf; lia).
Qed.

Lemma inv_listings_reachable w : reachable w → inv_listings w.
Proof.
  apply reachable_invariant; [apply inv_listings_deploy | apply inv_listings_step].
Qed.

(** ** Outcomes of single calls *)

Lemma step_revert w tx e w' tr :
  dispatch (tx_env tx) (tx_call tx) w = Revert e w' tr →
  step w tx = w ∧ receipt w tx = Failure e.
Proof. unfold step, receipt, transact. by intros ->. Qed.

Lemma step_ok w tx w' tr :
  dispatch (tx_env tx) (tx_call tx) w = Ok tt w' tr →
  step w tx = w' ∧ receipt w tx = Success tt tr.
Proof. unfold step, receipt, transact. by intros ->. Qed.

Lemma receipt_cases w tx :
  (∃ w' tr, dispatch (tx_env tx) (tx_call tx) w = Ok tt w' tr ∧
     step w tx = w' ∧ receipt w tx = Success tt tr) ∨
  (∃ e, step w tx = w ∧ receipt w tx = Failure e).
Proof.
  unfold step, receipt, transact.
  destruct (dispatch _ _ w) as [[] w' tr|e w' tr]; [left | right]; eauto.
Qed.

(** Follow the control flow of a call, closing the branches the
    hypotheses exclude. *)
Ltac mflow :=
  mred; mproj;
  repeat (match goal with
          | |- context [if ?c then _ else _] => destruct c eqn:?
          end; mproj;
          bprop; try done; try lia; try congruence).

(** A primary sale at full capacity reverts before any effect. *)
Lemma buyPrimary_sold_out env e w :
  EventRegistry.totalTickets (getEvent w e) <= get_minted w e →
  ∃ err, buyPrimary env e w = Revert err w [] ∧
    err ∈ [Require "Evento inexistente"; Require "Evento inactivo";
           Require "Evento ya paso"; Require "Precio incorrecto";
           Require "No quedan tickets disponibles"].
Proof.
  intros Hfull. getters. mred; mproj.
  repeat (match goal with
          | |- context [if ?c then _ else _] => destruct c eqn:?
          end; mproj;
          bprop; try lia;
          try (eexists; split; [reflexivity | set_solver])).
Qed.

(** ** Error taxonomy *)

Inductive ErrorClass :=
| ValidationError
| NotFoundError
| AuthorizationError
| StateConflictError
| PaymentMismatchError
| Unclassified.

Definition reason_in (r : string) (l : list string) : bool :=
  existsb (String.eqb r) l.

(** Modelled from the spec: the contracts only carry revert reasons; the
    error taxonomy (section 7 of the specification) names the classes, and
    this table files each reason of the code under the class whose
    description it matches. *)
Definition error_class (e : Error) : ErrorClass :=
  match e with
  | Require r =>
      if reason_in r ["Precio incorrecto"] then PaymentMismatchError
      else if reason_in r
        ["No quedan tickets disponibles";
         "Limite de tickets por cartera alcanzado";
         "Debes esperar antes de volver a comprar";
         "Ticket no valido para marcar como usado";
         "Ticket no valido";
         "Listing inactiva"] then StateConflictError
      else if reason_in r
        ["No autorizado para validar"; "Solo organizer u owner";
         "Solo el mercado puede llamar"; "No eres el dueno del ticket"]
        then AuthorizationError
      else if reason_in r
        ["Evento inexistente"; "Token no existe"; "Listing inexistente"]
        then NotFoundError
      else if reason_in r
        ["Nombre obligatorio"; "Precio base > 0"; "Total tickets > 0";
         "Factor de reventa minimo 100%"; "Limite por cartera > total";
         "Precio debe ser > 0"; "Sobrepasa el maximo de reventa";
         "Validador no valido"; "Market cero"] then ValidationError
      else Unclassified
  | _ => Unclassified
  end.

(** ** Counting along an execution *)

Definition is_mark_used (tx : Tx) (t : Z) : bool :=
  match tx_call tx with
  | MarkUsed t' | MarkTicketUsed t' => bool_decide (t' = t)
  | _ => false
  end.

(** Number of transactions of [txs], run from [w], that marked ticket [t]
    used and succeeded. *)
Fixpoint used_count (w : Ledger) (txs : list Tx) (t : Z) : nat :=
  match txs with
  | [] => 0%nat
  | tx :: rest =>
      ((if is_mark_used tx t && succeeded (receipt w tx) then 1 else 0)
       + used_count (step w tx) rest t)%nat
  end.

Definition is_primary (tx : Tx) (e : Z) (a : address) : bool :=
  match tx_call tx with
  | BuyPrimary e' => bool_decide (e' = e) && bool_decide (sender (tx_env tx) = a)
  | _ => false
  end.

(** Timestamps of the successful primary purchases of wallet [a] for
    event [e] among [txs], run from [w], in order. *)
Fixpoint primary_times (w : Ledger) (txs : list Tx) (e : Z) (a : address)
    : list Z :=
  match txs with
  | [] => []
  | tx :: rest =>
      (if is_primary tx e a && succeeded (receipt w tx)
       then [now (tx_env tx)] else [])
      ++ primary_times (step w tx) rest e a
  end.

(** Block timestamps are positive and fit 64 bits. *)
Definition valid_block (tx : Tx) : Prop :=
  0 < now (tx_env tx) <= uint_max 64.

(** ** A concrete run *)

Module Scenario.

Definition d0 : Deployment :=
  {| registry_owner := 1; registry_address := 101; nft_owner := 1;
     nft_address := 102; market_owner := 1; market_address := 103 |}.

Definition ledger0 : Ledger :=
  {| registry := EventRegistry.constructor 1;
     nft := TicketNFT.constructor 1 101;
     market := TicketMarket.constructor 103 1 |}.

Definition call (from amount time : Z) (c : Call) : Tx :=
  {| tx_env := {| sender := from; value := amount; now := time;
                  receiver_ok := true; receiver_reason := Datatypes.None;
                  payee_ok := true; payee_reason := Datatypes.None |};
     tx_call := c |}.

(** A buyer contract whose [onERC721Received] reverts with [reason]. *)
Definition refusing (from amount time : Z) (reason : Error) : Env :=
  {| sender := from; value := amount; now := time;
     receiver_ok := false; receiver_reason := Some reason;
     payee_ok := true; payee_reason := Datatypes.None |}.

(** Organizer 10 opens event 0 (price 100, resale factor 130, two
    tickets, one per wallet); wallets 20 and 21 buy tickets 1 and 2. *)
Definition first_sale : list Tx :=
  [ call 1 0 1 (SetMarket 103);
    call 10 0 2 (CreateEvent "Concierto" 1000 "A Coruna" 100 130 2 "cid" 1 0);
    call 20 100 5 (BuyPrimary 0) ].
Definition sale : list Tx := first_sale ++ [ call 21 100 7 (BuyPrimary 0) ].

(** Wallet 20 lists ticket 1 at 125 and wallet 23 buys the listing. *)
Definition listed : list Tx := sale ++ [ call 20 0 8 (ListForResale 1 125) ].
Definition resold : list Tx := listed ++ [ call 23 125 9 (BuyFromResale 0) ].

(** Validator 30 of event 0 admits ticket 2. *)
Definition validated : list Tx :=
  resold ++ [ call 10 0 10 (SetValidator 0 30 true);
              call 30 0 11 (MarkTicketUsed 2) ].

(** Organizer 11 opens event 1 with a cooldown of 60; wallet 20 buys at
    times 100 and 160. *)
Definition cooled : list Tx :=
  validated ++
  [ call 11 0 12 (CreateEvent "Festival" 5000 "Vigo" 50 100 10 "cid2" 0 60);
    call 20 50 100 (BuyPrimary 1);
    call 20 50 160 (BuyPrimary 1) ].

Lemma deployed : deploy d0 = Some ledger0.
Proof. reflexivity. Defined.

Lemma scenario_reachable txs : reachable (run ledger0 txs).
Proof. exists d0, ledger0, txs. split; [exact deployed | reflexivity]. Defined.

End Scenario.

(** ** Ticket states only move forward *)

Definition final_state (st : TicketNFT.TicketState) : Prop :=
  st = TicketNFT.Used ∨ st = TicketNFT.Cancelled.

Lemma ticket_state_step w tx t :
  inv_tickets (nft w) →
  final_state (TicketNFT.get_ticketState (nft w) t) →
  TicketNFT.get_ticketState (nft (step w tx)) t =
  TicketNFT.get_ticketState (nft w) t.
Proof.
  intros [Hn Hu Hm] Hfin. unfold final_state, minted_ticket in *. getters.
  assert (1 <= t <= TicketNFT._nextTokenId (nft w)) as Hin.
  { destruct (decide (1 <= t <= TicketNFT._nextTokenId (nft w))); [done|].
    apply Hu in n. destruct Hfin; congruence. }
  step_cases w tx; try done; bprop; sload_cases; try done; try lia.
  all: destruct Hfin; congruence.
Qed.

Lemma ticket_state_run txs : ∀ w t,
  inv_tickets (nft w) →
  final_state (TicketNFT.get_ticketState (nft w) t) →
  TicketNFT.get_ticketState (nft (run w txs)) t =
  TicketNFT.get_ticketState (nft w) t.
Proof.
  induction txs as [|tx txs IH]; intros w t Hinv Hfin; simpl; [done|].
  pose proof (ticket_state_step w tx t Hinv Hfin) as Hs.
  rewrite IH; [done | by apply inv_tickets_step | by rewrite Hs].
Qed.

(** A successful marking finds the ticket [Valid] and leaves it [Used]. *)
Lemma mark_used_success w tx t :
  is_mark_used tx t = true → succeeded (receipt w tx) = true →
  TicketNFT.get_ticketState (nft w) t = TicketNFT.Valid ∧
  TicketNFT.get_ticketState (nft (step w tx)) t = TicketNFT.Used.
Proof.
  unfold is_mark_used. getters.
  step_cases w tx; try done; intros; bprop; subst; sload_cases; done.
Qed.

Lemma used_count_final txs : ∀ w t,
  inv_tickets (nft w) →
  final_state (TicketNFT.get_ticketState (nft w) t) →
  used_count w txs t = 0%nat.
Proof.
  induction txs as [|tx txs IH]; intros w t Hinv Hfin; simpl; [done|].
  rewrite IH; [ | by apply inv_tickets_step
                | by rewrite ticket_state_step ].
  destruct (is_mark_used tx t) eqn:Hm; [|done].
  destruct (succeeded (receipt w tx)) eqn:Hs; [|done].
  destruct (mark_used_success w tx t Hm Hs) as [Hv _].
  destruct Hfin; congruence.
Qed.

Lemma used_count_le_1 txs : ∀ w t,
  inv_tickets (nft w) → (used_count w txs t <= 1)%nat.
Proof.
  induction txs as [|tx txs IH]; intros w t Hinv; simpl; [lia|].
  destruct (is_mark_used tx t && succeeded (receipt w tx)) eqn:Hb.
  - apply andb_true_iff in Hb as [Hm Hs].
    destruct (mark_used_success w tx t Hm Hs) as [_ Hu].
    rewrite used_count_final; [lia | by apply inv_tickets_step |].
    left. exact Hu.
  - specialize (IH (step w tx) t (inv_tickets_step _ _ Hinv)). lia.
Qed.

(** The registry function on a ticket that exists. *)
Lemma markUsed_valid s t :
  TicketNFT._ownerOf s t ≠ 0 →
  TicketNFT.get_ticketState s t = TicketNFT.Valid →
  ∃ s', TicketNFT.markUsed (TicketNFT.market s) t s =
          Ok tt s' [SStore "ticketState" [t];
                    Emit "TicketStateChanged" [AInt t; AInt 2]] ∧
        TicketNFT.get_ticketState s' t = TicketNFT.Used.
Proof.
  intros Ho Hv. getters. mflow.
  eexists. split; [reflexivity|]. getters. mproj. by rewrite sload_insert_eq.
Qed.

Lemma markUsed_not_valid s t :
  TicketNFT._ownerOf s t ≠ 0 →
  TicketNFT.get_ticketState s t ≠ TicketNFT.Valid →
  TicketNFT.markUsed (TicketNFT.market s) t s =
    Revert (Require "Ticket no valido para marcar como usado") s [].
Proof.
  intros Ho Hv. getters. mflow.
Qed.

(** ** Closed listings stay closed *)

Definition closed (w : Ledger) (l : Z) : Prop :=
  active (get_listing w l) = false ∧ 0 <= l < nextListingId (market w).

Lemma closed_step w tx l : closed w l → closed (step w tx) l.
Proof.
  unfold closed. getters. intros [Ha Hl].
  step_cases w tx; try done; bprop; sload_cases; mproj;
    try (split; [done | lia]); congruence.
Qed.

Lemma closed_run txs : ∀ w l, closed w l → closed (run w txs) l.
Proof.
  induction txs as [|tx txs IH]; intros w l Hc; simpl; [done|].
  by apply IH, closed_step.
Qed.

Lemma buyFromResale_inactive env l w :
  active (get_listing w l) = false →
  buyFromResale env l w = Revert (Require "Listing inactiva") w [].
Proof. intros Ha. getters. mred. by rewrite Ha. Qed.

Lemma buyFromResale_trace env l w w' tr :
  buyFromResale env l w = Ok tt w' tr →
  tr = [SStore "listings.active" [l];
        SendEther (seller (get_listing w l)) (value env);
        SStore "_owners" [tokenId (get_listing w l)];
        Emit "Transfer" [AInt (this (market w)); AInt (sender env);
                         AInt (tokenId (get_listing w l))];
        Emit "ResaleTicketBought"
          [AInt l; AInt (tokenId (get_listing w l)); AInt (sender env);
           AInt (value env)]] ∧
  active (get_listing w l) = true ∧
  active (get_listing w' l) = false ∧
  nextListingId (market w') = nextListingId (market w).
Proof.
  intros H. exec H; bprop; sload_cases; mproj; repeat split; congruence.
Qed.

(** ** Primary purchases of one wallet *)

Lemma primary_success w tx e a :
  is_primary tx e a = true → succeeded (receipt w tx) = true →
  let evt := getEvent w e in
  let st := get_buyerState w e a in
  let st' := get_buyerState (step w tx) e a in
  EventRegistry.organizer evt ≠ 0 ∧
  bought st' = bought st + 1 ∧
  lastBuyTs st' = cast_uint 64 (now (tx_env tx)) ∧
  (0 < EventRegistry.walletCooldown evt → lastBuyTs st ≠ 0 →
   lastBuyTs st + EventRegistry.walletCooldown evt <= now (tx_env tx)).
Proof.
  unfold is_primary. getters.
  step_cases w tx; try done; intros; bprop; subst; sload_cases; mproj;
    repeat split; try done; try lia; try congruence.
Qed.

Lemma primary_other w tx e a :
  is_primary tx e a && succeeded (receipt w tx) = false →
  get_buyerState (step w tx) e a = get_buyerState w e a.
Proof.
  unfold is_primary. getters.
  step_cases w tx; try done; intros Hp; bprop; sload_cases; mproj; try done.
  all: rewrite !bool_decide_eq_true_2 in Hp by done; done.
Qed.

Lemma bought_counts e a txs : ∀ w,
  bought (get_buyerState (run w txs) e a) =
  bought (get_buyerState w e a) + Z.of_nat (length (primary_times w txs e a)).
Proof.
  induction txs as [|tx txs IH]; intros w; simpl; [lia|].
  rewrite IH, length_app.
  destruct (is_primary tx e a && succeeded (receipt w tx)) eqn:Hb.
  - apply andb_true_iff in Hb as [Hp Hs].
    destruct (primary_success w tx e a Hp Hs) as (_ & Hbought & _).
    rewrite Hbought. simpl. lia.
  - rewrite (primary_other w tx e a Hb). simpl. lia.
Qed.

Lemma primary_times_none e a txs : ∀ w,
  primary_times w txs e a = [] →
  get_buyerState (run w txs) e a = get_buyerState w e a.
Proof.
  induction txs as [|tx txs IH]; intros w; simpl; [done|].
  destruct (is_primary tx e a && succeeded (receipt w tx)) eqn:Hb; [done|].
  simpl. intros Hnil. rewrite IH by done. by apply primary_other.
Qed.

Lemma cast_uint_valid t : 0 < t <= uint_max 64 → cast_uint 64 t = t.
Proof. unfold cast_uint, uint_max. intros. apply Z.mod_small. lia. Qed.

(** The last successful purchase is the one [lastBuyTs] remembers. *)
Lemma last_purchase e a txs : ∀ w t,
  Forall valid_block txs →
  last (primary_times w txs e a) = Some t →
  lastBuyTs (get_buyerState (run w txs) e a) = t.
Proof.
  induction txs as [|tx txs IH]; intros w t Hv; simpl; [done|].
  apply Forall_cons in Hv as [Hv1 Hv].
  destruct (primary_times (step w tx) txs e a) as [|t1 ts] eqn:Hrest.
  - rewrite app_nil_r.
    destruct (is_primary tx e a && succeeded (receipt w tx)) eqn:Hb; [|done].
    simpl. intros [= <-]. rewrite primary_times_none by done.
    apply andb_true_iff in Hb as [Hp Hs].
    destruct (primary_success w tx e a Hp Hs) as (_ & _ & Hts & _).
    rewrite Hts. by apply cast_uint_valid.
  - intros Hl. apply IH; [done|]. rewrite Hrest.
    by rewrite last_app_cons in Hl.
Qed.

(** ** Cooldown between purchases *)

Fixpoint spaced (C : Z) (l : list Z) : Prop :=
  match l with
  | [] => True
  | t :: rest => Forall (λ u, t + C <= u) rest ∧ spaced C rest
  end.

Lemma spaced_lookup C (l : list Z) : spaced C l →
  ∀ (i j : nat) ti tj, (i < j)%nat → l !! i = Some ti → l !! j = Some tj →
    ti + C <= tj.
Proof.
  induction l as [|t l IH]; intros Hs i j ti tj Hij Hi Hj; [done|].
  destruct Hs as [Hall Hs]. destruct j as [|j]; [lia|]. simpl in Hj.
  destruct i as [|i]; simpl in Hi.
  - injection Hi as <-. rewrite Forall_forall in Hall. apply Hall.
    by eapply list_elem_of_lookup_2.
  - eapply (IH Hs i j); [lia | done | done].
Qed.

Lemma primary_spaced e a C txs : ∀ w,
  inv_events w → Forall valid_block txs →
  EventRegistry.walletCooldown (getEvent (run w txs) e) = C → 0 < C →
  spaced C (primary_times w txs e a) ∧
  Forall (λ t, lastBuyTs (get_buyerState w e a) ≠ 0 →
               lastBuyTs (get_buyerState w e a) + C <= t)
         (primary_times w txs e a).
Proof.
  induction txs as [|tx txs IH]; intros w Hinv Hv Hcfg HC; simpl; [done|].
  apply Forall_cons in Hv as [Hv1 Hv]. simpl in Hcfg.
  destruct (IH (step w tx) (inv_events_step _ _ Hinv) Hv Hcfg HC) as [Hsp Hlb].
  destruct (is_primary tx e a && succeeded (receipt w tx)) eqn:Hb; simpl.
  - apply andb_true_iff in Hb as [Hp Hs].
    destruct (primary_success w tx e a Hp Hs) as (Hex & _ & Hts & Hcool).
    rewrite (cast_uint_valid _ Hv1) in Hts.
    pose proof (event_config_run (tx :: txs) w e Hinv Hex) as Hsame.
    apply (f_equal EventRegistry.walletCooldown) in Hsame. cbn in Hsame.
    rewrite Hcfg in Hsame. rewrite <- Hsame in Hcool.
    rewrite Hts in Hlb. unfold valid_block in Hv1.
    assert (Forall (λ u, now (tx_env tx) + C <= u)
              (primary_times (step w tx) txs e a)) as Hnext.
    { eapply Forall_impl; [exact Hlb|]. simpl. intros u Hu. apply Hu. lia. }
    repeat split; try done.
    apply Forall_cons. split; [by auto|].
    eapply Forall_impl; [exact Hnext|]. simpl. intros u Hu Hne.
    specialize (Hcool HC Hne). lia.
  - rewrite (primary_other w tx e a Hb) in Hlb. done.
Qed.

(** Why [valid_block] is assumed: [lastBuyTs = 0] stands for "no purchase
    yet", so a purchase stamped 0 would not start a cooldown.  Here event
    0 has a cooldown of 60 and wallet 20 buys twice in blocks stamped 0. *)
Example purchase_stamped_zero :
  primary_times Scenario.ledger0
    [ Scenario.call 1 0 0 (SetMarket 103);
      Scenario.call 10 0 0 (CreateEvent "Feria" 1000 "Lugo" 100 130 5 "cid" 0 60);
      Scenario.call 20 100 0 (BuyPrimary 0);
      Scenario.call 20 100 0 (BuyPrimary 0) ] 0 20 = [0; 0].
Proof. vm_compute. reflexivity. Qed.

(** ** Checks of [buyPrimary] *)

Lemma buyPrimary_ok env e w w' tr :
  buyPrimary env e w = Ok tt w' tr →
  let evt := getEvent w e in
  let st := get_buyerState w e (sender env) in
  EventRegistry.organizer evt ≠ 0 ∧
  EventRegistry.active evt = true ∧
  now env < EventRegistry.date evt ∧
  value env = EventRegistry.basePriceWei evt ∧
  get_minted w e < EventRegistry.totalTickets evt ∧
  (0 < EventRegistry.maxTicketsPerWallet evt →
   bought st + 1 <= EventRegistry.maxTicketsPerWallet evt) ∧
  (0 < EventRegistry.walletCooldown evt → lastBuyTs st ≠ 0 →
   lastBuyTs st + EventRegistry.walletCooldown evt <= now env) ∧
  get_minted w' e = get_minted w e + 1 ∧
  TicketNFT._nextTokenId (nft w') = TicketNFT._nextTokenId (nft w) + 1 ∧
  bought (get_buyerState w' e (sender env)) = bought st + 1.
Proof.
  intros H. exec H; bprop; sload_cases; mproj; repeat split; try done; lia.
Qed.

(** A run that reverts after an effect has passed the seven checks: the
    reverts before that point happen on the initial ledger. *)
Lemma buyPrimary_revert_late env e w err w' tr :
  buyPrimary env e w = Revert err w' tr →
  let evt := getEvent w e in
  let st := get_buyerState w e (sender env) in
  (w' = w ∧ tr = []) ∨
  (EventRegistry.organizer evt ≠ 0 ∧
   EventRegistry.active evt = true ∧
   now env < EventRegistry.date evt ∧
   value env = EventRegistry.basePriceWei evt ∧
   get_minted w e < EventRegistry.totalTickets evt ∧
   (0 < EventRegistry.maxTicketsPerWallet evt →
    bought st + 1 <= EventRegistry.maxTicketsPerWallet evt) ∧
   (0 < EventRegistry.walletCooldown evt → lastBuyTs st ≠ 0 →
    lastBuyTs st + EventRegistry.walletCooldown evt <= now env)).
Proof.
  intros H. cbv zeta. getters. revert H. mred; mproj.
  repeat (match goal with
          | |- context [if ?c then _ else _] => destruct c eqn:?
          end; mproj).
  all: intros [= <- <- <-]; first [left; done | right].
  all: bprop; repeat split; try done; lia.
Qed.

Lemma buyPrimary_rejects env e w :
  let evt := getEvent w e in
  let st := get_buyerState w e (sender env) in
  EventRegistry.organizer evt = 0 ∨
  EventRegistry.active evt = false ∨
  EventRegistry.date evt <= now env ∨
  value env ≠ EventRegistry.basePriceWei evt ∨
  EventRegistry.totalTickets evt <= get_minted w e ∨
  (0 < EventRegistry.maxTicketsPerWallet evt ∧
   EventRegistry.maxTicketsPerWallet evt < bought st + 1) ∨
  (0 < EventRegistry.walletCooldown evt ∧ lastBuyTs st ≠ 0 ∧
   now env < lastBuyTs st + EventRegistry.walletCooldown evt) →
  ∃ err, buyPrimary env e w = Revert err w [].
Proof.
  getters. intros H. mred; mproj.
  repeat (match goal with
          | |- context [if ?c then _ else _] => destruct c eqn:?
          end; mproj;
          try (eexists; reflexivity)).
  all: exfalso; bprop; intuition (try congruence; try lia).
Qed.

Lemma buyPrimary_wrong_payment env e w :
  let evt := getEvent w e in
  EventRegistry.organizer evt ≠ 0 → EventRegistry.active evt = true →
  now env < EventRegistry.date evt →
  value env ≠ EventRegistry.basePriceWei evt →
  buyPrimary env e w = Revert (Require "Precio incorrecto") w [].
Proof. getters. intros. mflow. Qed.

Lemma buyPrimary_limit_reached env e w :
  let evt := getEvent w e in
  let st := get_buyerState w e (sender env) in
  EventRegistry.organizer evt ≠ 0 → EventRegistry.active evt = true →
  now env < EventRegistry.date evt →
  value env = EventRegistry.basePriceWei evt →
  0 < EventRegistry.maxTicketsPerWallet evt <= uint_max 16 →
  bought st = EventRegistry.maxTicketsPerWallet evt →
  buyPrimary env e w =
    Revert (Require (if get_minted w e <? EventRegistry.totalTickets evt
                     then "Limite de tickets por cartera alcanzado"
                     else "No quedan tickets disponibles")) w [].
Proof.
  getters. intros Hex Hact Hdate Hval HN Hb. mred; mproj.
  repeat (match goal with
          | |- context [if ?c then _ else _] => destruct c eqn:?
          end; mproj;
          bprop; try done; try lia; try congruence; auto).
  unfold uint_max in *. simpl in *. lia.
Qed.

(** ** Checks of [listForResale], [buyFromResale] and [markTicketUsed] *)

(** The price cap of a ticket: [basePriceWei * maxResaleFactor / 100],
    rounded down. *)
Definition resale_cap (w : Ledger) (tokenId : Z) : Z :=
  let evt := getEvent w (TicketNFT.get_ticketEvent (nft w) tokenId) in
  (EventRegistry.basePriceWei evt * EventRegistry.maxResaleFactor evt) / 100.

Lemma listForResale_ok env t p w w' tr :
  listForResale env t p w = Ok tt w' tr →
  p <= resale_cap w t ∧
  get_listing w' (nextListingId (market w)) =
    {| tokenId := t; seller := sender env; priceWei := p; active := true |} ∧
  nextListingId (market w') = nextListingId (market w) + 1.
Proof.
  unfold resale_cap. intros H. exec H; bprop; sload_cases; mproj; done.
Qed.

Lemma listForResale_above_cap env t p w :
  resale_cap w t < p → ∃ err, listForResale env t p w = Revert err w [].
Proof.
  unfold resale_cap. destruct w as [r n m]. getters. intros H. mred; mproj.
  repeat (match goal with
          | |- context [if ?c then _ else _] => destruct c eqn:?
          end; mproj;
          try (eexists; reflexivity)).
  all: exfalso; bprop; lia.
Qed.

Lemma listForResale_cap_error env t p w :
  let evt := getEvent w (TicketNFT.get_ticketEvent (nft w) t) in
  TicketNFT._ownerOf (nft w) t = sender env → sender env ≠ 0 →
  TicketNFT.get_ticketState (nft w) t = TicketNFT.Valid →
  0 < p →
  EventRegistry.organizer evt ≠ 0 → EventRegistry.active evt = true →
  now env < EventRegistry.date evt →
  in_uint 256 (EventRegistry.basePriceWei evt * EventRegistry.maxResaleFactor evt) →
  resale_cap w t < p →
  listForResale env t p w =
    Revert (Require "Sobrepasa el maximo de reventa") w [].
Proof.
  unfold resale_cap. destruct w as [r n m]. getters.
  intros Ho Hs Hv Hp Hex Hact Hdate Hrange Hcap.
  unfold in_uint in Hrange. mred; mproj.
  repeat (match goal with
          | |- context [if ?c then _ else _] => destruct c eqn:?
          end; mproj;
          bprop; try done; try lia; try congruence).
Qed.

Lemma buyFromResale_ok env l w w' tr :
  buyFromResale env l w = Ok tt w' tr →
  value env = priceWei (get_listing w l).
Proof. intros H. exec H; bprop; done. Qed.

Lemma buyFromResale_wrong_payment env l w :
  value env ≠ priceWei (get_listing w l) →
  (∃ err, buyFromResale env l w = Revert err w []) ∧
  (active (get_listing w l) = true → seller (get_listing w l) ≠ 0 →
   buyFromResale env l w = Revert (Require "Precio incorrecto") w []).
Proof.
  getters. intros Hv. split.
  - mred; mproj.
    repeat (match goal with
            | |- context [if ?c then _ else _] => destruct c eqn:?
            end; mproj;
            try (eexists; reflexivity)).
    all: exfalso; bprop; lia.
  - intros Ha Hs. mflow.
Qed.

(** Who may admit a ticket: the organizer of its event, a validator
    registered for that event, or the owner of the market contract. *)
Definition may_validate (w : Ledger) (caller : address) (tokenId : Z) : Prop :=
  let eventId := TicketNFT.get_ticketEvent (nft w) tokenId in
  caller = EventRegistry.organizer (getEvent w eventId) ∨
  EventRegistry.isValidator (registry w) eventId caller = true ∨
  caller = owner (market w).

Lemma markTicketUsed_ok env t w w' tr :
  markTicketUsed env t w = Ok tt w' tr →
  may_validate w (sender env) t ∧
  TicketNFT.get_ticketState (nft w) t = TicketNFT.Valid ∧
  TicketNFT.get_ticketState (nft w') t = TicketNFT.Used.
Proof.
  unfold may_validate. intros H. exec H; bprop; sload_cases.
  all: repeat split; try done.
  all: match goal with
       | H : (_ || _ || _) = true |- _ =>
           apply orb_true_iff in H as [H|H];
           [apply orb_true_iff in H as [H|H]|]
       end; bprop; auto.
Qed.

Lemma markTicketUsed_unauthorized env t w :
  ¬ may_validate w (sender env) t →
  (∃ err, markTicketUsed env t w = Revert err w []) ∧
  (EventRegistry.organizer
     (getEvent w (TicketNFT.get_ticketEvent (nft w) t)) ≠ 0 →
   markTicketUsed env t w = Revert (Require "No autorizado para validar") w []).
Proof.
  unfold may_validate. getters. intros Hno.
  assert ((sender env =?
             EventRegistry.organizer
               (sload (EventRegistry.events (registry w))
                  (sload (TicketNFT.ticketEvent (nft w)) t)))
          || sload (EventRegistry._validators (registry w))
               (sload (TicketNFT.ticketEvent (nft w)) t, sender env)
          || (sender env =? owner (market w)) = false) as Hb.
  { apply not_true_is_false. intros Hb. apply Hno.
    apply orb_true_iff in Hb as [Hb|Hb];
      [apply orb_true_iff in Hb as [Hb|Hb]|]; bprop; auto. }
  split; [|intros Hex]; mred; mproj.
  all: repeat (match goal with
          | |- context [if ?c then _ else _] => destruct c eqn:?
          end; mproj;
          try (eexists; reflexivity); try congruence).
  bprop. congruence.
Qed.

Lemma primary_times_valid e a txs : ∀ w,
  Forall valid_block txs →
  Forall (λ t, 0 < t <= uint_max 64) (primary_times w txs e a).
Proof.
  induction txs as [|tx txs IH]; intros w Hv; simpl; [done|].
  apply Forall_cons in Hv as [Hv1 Hv]. apply Forall_app. split; [|by apply IH].
  destruct (_ && _); [|done]. by apply Forall_singleton.
Qed.

Lemma resale_cap_floor w t :
  let evt := getEvent w (TicketNFT.get_ticketEvent (nft w) t) in
  100 * resale_cap w t
    <= EventRegistry.basePriceWei evt * EventRegistry.maxResaleFactor evt
    < 100 * (resale_cap w t + 1).
Proof.
  unfold resale_cap. cbv zeta.
  set (x := EventRegistry.basePriceWei _ * EventRegistry.maxResaleFactor _).
  pose proof (Z.mul_div_le x 100). pose proof (Z.mul_succ_div_gt x 100). lia.
Qed.

(** * The claims *)

(** C1. In every reachable ledger the number of tickets minted for an
    event is at most the capacity of the event; and a primary purchase
    attempted when the two are equal reverts before any effect: no ticket
    is minted and the ledger after the transaction is the ledger before. *)
Theorem minted_never_exceeds_capacity w e :
  reachable w →
  get_minted w e <= EventRegistry.totalTickets (getEvent w e) ∧
  ∀ env, get_minted w e = EventRegistry.totalTickets (getEvent w e) →
    ∃ err, buyPrimary env e w = Revert err w [] ∧
           step w {| tx_env := env; tx_call := BuyPrimary e |} = w ∧
           receipt w {| tx_env := env; tx_call := BuyPrimary e |} = Failure err.
Proof.
  intros Hr. split.
  - apply (minted_capacity w (inv_events_reachable w Hr) e).
  - intros env Hfull.
    destruct (buyPrimary_sold_out env e w) as (err & Hrev & _); [lia|].
    exists err. split; [done|].
    by apply (step_revert w {| tx_env := env; tx_call := BuyPrimary e |} err w []).
Qed.

Lemma minted_never_exceeds_capacity_witness :
  reachable (run Scenario.ledger0 Scenario.sale) ∧
  get_minted (run Scenario.ledger0 Scenario.sale) 0 =
    EventRegistry.totalTickets (getEvent (run Scenario.ledger0 Scenario.sale) 0) ∧
  (get_minted (run Scenario.ledger0 Scenario.sale) 0
     <= EventRegistry.totalTickets (getEvent (run Scenario.ledger0 Scenario.sale) 0) ∧
   ∀ env, get_minted (run Scenario.ledger0 Scenario.sale) 0 =
            EventRegistry.totalTickets (getEvent (run Scenario.ledger0 Scenario.sale) 0) →
     ∃ err, buyPrimary env 0 (run Scenario.ledger0 Scenario.sale)
              = Revert err (run Scenario.ledger0 Scenario.sale) [] ∧
            step (run Scenario.ledger0 Scenario.sale)
              {| tx_env := env; tx_call := BuyPrimary 0 |}
              = run Scenario.ledger0 Scenario.sale ∧
            receipt (run Scenario.ledger0 Scenario.sale)
              {| tx_env := env; tx_call := BuyPrimary 0 |} = Failure err).
Proof.
  split; [apply Scenario.scenario_reachable|].
  split; [vm_compute; reflexivity|].
  apply (minted_never_exceeds_capacity (run Scenario.ledger0 Scenario.sale) 0).
  apply Scenario.scenario_reachable.
Defined.

(** C2. Ticket states only move forward.  For a minted ticket of a
    reachable ledger: while it is [Valid], [markUsed] (called by the
    market) succeeds and leaves it [Used]; once it is [Used], [markUsed]
    reverts with the state-conflict reason; a ticket that is [Used] or
    [Cancelled] keeps that state through every later transaction; and in
    any sequence of transactions at most one marking of the ticket
    succeeds. *)
Theorem ticket_states_move_forward w t :
  reachable w → minted_ticket (nft w) t →
  (TicketNFT.get_ticketState (nft w) t = TicketNFT.Valid →
   ∃ s', TicketNFT.markUsed (TicketNFT.market (nft w)) t (nft w) =
           Ok tt s' [SStore "ticketState" [t];
                     Emit "TicketStateChanged" [AInt t; AInt 2]] ∧
         TicketNFT.get_ticketState s' t = TicketNFT.Used) ∧
  (TicketNFT.get_ticketState (nft w) t = TicketNFT.Used →
   TicketNFT.markUsed (TicketNFT.market (nft w)) t (nft w) =
     Revert (Require "Ticket no valido para marcar como usado") (nft w) [] ∧
   error_class (Require "Ticket no valido para marcar como usado") =
     StateConflictError) ∧
  (∀ txs, final_state (TicketNFT.get_ticketState (nft w) t) →
     TicketNFT.get_ticketState (nft (run w txs)) t =
     TicketNFT.get_ticketState (nft w) t) ∧
  (∀ txs, (used_count w txs t <= 1)%nat).
Proof.
  intros Hr Hm. pose proof (inv_tickets_reachable w Hr) as Hinv.
  destruct (ticket_minted _ Hinv t Hm) as [_ Hown].
  repeat split.
  - intros Hv. by apply markUsed_valid.
  - apply markUsed_not_valid; [done | congruence].
  - intros txs Hfin. by apply ticket_state_run.
  - intros txs. by apply used_count_le_1.
Qed.

Lemma ticket_states_move_forward_witness :
  reachable (run Scenario.ledger0 Scenario.validated) ∧
  minted_ticket (nft (run Scenario.ledger0 Scenario.validated)) 2 ∧
  TicketNFT.get_ticketState (nft (run Scenario.ledger0 Scenario.validated)) 2
    = TicketNFT.Used ∧
  TicketNFT.markUsed
    (TicketNFT.market (nft (run Scenario.ledger0 Scenario.validated))) 2
    (nft (run Scenario.ledger0 Scenario.validated)) =
  Revert (Require "Ticket no valido para marcar como usado")
    (nft (run Scenario.ledger0 Scenario.validated)) [].
Proof.
  assert (minted_ticket (nft (run Scenario.ledger0 Scenario.validated)) 2) as Hm.
  { unfold minted_ticket.
    replace (TicketNFT._nextTokenId (nft (run Scenario.ledger0 Scenario.validated)))
      with 2 by (vm_compute; reflexivity).
    lia. }
  assert (TicketNFT.get_ticketState
            (nft (run Scenario.ledger0 Scenario.validated)) 2 = TicketNFT.Used)
    as Hu by (vm_compute; reflexivity).
  split; [apply Scenario.scenario_reachable|].
  split; [exact Hm|]. split; [exact Hu|].
  destruct (ticket_states_move_forward
              (run Scenario.ledger0 Scenario.validated) 2
              (Scenario.scenario_reachable Scenario.validated) Hm)
    as (_ & Hsecond & _).
  exact (proj1 (Hsecond Hu)).
Defined.

(** C3. A successful [buyFromResale] performs its effects in this order:
    the listing is marked inactive, then the seller is paid, then the
    ticket goes from escrow to the buyer.  Afterwards the listing is
    inactive and stays so: after any further transactions every
    [buyFromResale] on that listing id reverts with "Listing inactiva". *)
Theorem listing_closed_before_transfers w env l w' tr :
  reachable w →
  buyFromResale env l w = Ok tt w' tr →
  tr = [SStore "listings.active" [l];
        SendEther (seller (get_listing w l)) (value env);
        SStore "_owners" [tokenId (get_listing w l)];
        Emit "Transfer" [AInt (this (market w)); AInt (sender env);
                         AInt (tokenId (get_listing w l))];
        Emit "ResaleTicketBought"
          [AInt l; AInt (tokenId (get_listing w l)); AInt (sender env);
           AInt (value env)]] ∧
  active (get_listing w' l) = false ∧
  ∀ txs env',
    active (get_listing (run w' txs) l) = false ∧
    buyFromResale env' l (run w' txs) =
      Revert (Require "Listing inactiva") (run w' txs) [] ∧
    succeeded (receipt (run w' txs)
                 {| tx_env := env'; tx_call := BuyFromResale l |}) = false.
Proof.
  intros Hr Hok.
  destruct (buyFromResale_trace env l w w' tr Hok) as (Htr & Hact & Hoff & Hnext).
  split; [done|]. split; [done|]. intros txs env'.
  assert (closed w' l) as Hc.
  { split; [done|]. rewrite Hnext.
    destruct (inv_listings_reachable w Hr) as [Hn Hf].
    destruct (decide (0 <= l < nextListingId (market w))) as [|Hout]; [done|].
    apply Hf in Hout. congruence. }
  destruct (closed_run txs w' l Hc) as [Hoff' _].
  pose proof (buyFromResale_inactive env' l (run w' txs) Hoff') as Hrev.
  split; [done|]. split; [done|].
  destruct (step_revert (run w' txs)
              {| tx_env := env'; tx_call := BuyFromResale l |} _ _ _ Hrev)
    as [_ ->]. done.
Qed.

Lemma listing_closed_before_transfers_witness :
  reachable (run Scenario.ledger0 Scenario.listed) ∧
  buyFromResale (tx_env (Scenario.call 23 125 9 (BuyFromResale 0))) 0
    (run Scenario.ledger0 Scenario.listed) =
  Ok tt (run Scenario.ledger0 Scenario.resold)
    [SStore "listings.active" [0]; SendEther 20 125; SStore "_owners" [1];
     Emit "Transfer" [AInt 103; AInt 23; AInt 1];
     Emit "ResaleTicketBought" [AInt 0; AInt 1; AInt 23; AInt 125]] ∧
  buyFromResale (tx_env (Scenario.call 24 125 10 (BuyFromResale 0))) 0
    (run Scenario.ledger0 Scenario.resold) =
  Revert (Require "Listing inactiva") (run Scenario.ledger0 Scenario.resold) [].
Proof.
  assert (buyFromResale (tx_env (Scenario.call 23 125 9 (BuyFromResale 0))) 0
            (run Scenario.ledger0 Scenario.listed) =
          Ok tt (run Scenario.ledger0 Scenario.resold)
            [SStore "listings.active" [0]; SendEther 20 125;
             SStore "_owners" [1];
             Emit "Transfer" [AInt 103; AInt 23; AInt 1];
             Emit "ResaleTicketBought" [AInt 0; AInt 1; AInt 23; AInt 125]])
    as Hok by (vm_compute; reflexivity).
  split; [apply Scenario.scenario_reachable|]. split; [exact Hok|].
  destruct (listing_closed_before_transfers _ _ _ _ _
              (Scenario.scenario_reachable Scenario.listed) Hok)
    as (_ & _ & Hlater).
  exact (proj1 (proj2
    (Hlater [] (tx_env (Scenario.call 24 125 10 (BuyFromResale 0)))))).
Defined.

(** C4. The resale cap is [basePriceWei * maxResaleFactor / 100] rounded
    down.  [listForResale] succeeds only with a price at most the cap, and
    then records the listing at exactly the price asked; with a price
    above the cap it reverts before any effect, so the ledger is unchanged
    and no listing is created; when the checks before the cap pass, the
    revert is "Sobrepasa el maximo de reventa". *)
Theorem resale_price_capped env t p w :
  let evt := getEvent w (TicketNFT.get_ticketEvent (nft w) t) in
  let tx := {| tx_env := env; tx_call := ListForResale t p |} in
  100 * resale_cap w t
    <= EventRegistry.basePriceWei evt * EventRegistry.maxResaleFactor evt
    < 100 * (resale_cap w t + 1) ∧
  (∀ w' tr, listForResale env t p w = Ok tt w' tr →
     p <= resale_cap w t ∧
     get_listing w' (nextListingId (market w)) =
       {| tokenId := t; seller := sender env; priceWei := p; active := true |}) ∧
  (resale_cap w t < p →
     (∃ err, listForResale env t p w = Revert err w []) ∧
     step w tx = w ∧ succeeded (receipt w tx) = false) ∧
  (resale_cap w t < p →
     TicketNFT._ownerOf (nft w) t = sender env → sender env ≠ 0 →
     TicketNFT.get_ticketState (nft w) t = TicketNFT.Valid →
     0 < p →
     EventRegistry.organizer evt ≠ 0 → EventRegistry.active evt = true →
     now env < EventRegistry.date evt →
     in_uint 256 (EventRegistry.basePriceWei evt * EventRegistry.maxResaleFactor evt) →
     listForResale env t p w =
       Revert (Require "Sobrepasa el maximo de reventa") w [] ∧
     error_class (Require "Sobrepasa el maximo de reventa") = ValidationError).
Proof.
  cbv zeta. split; [apply resale_cap_floor|]. split; [|split].
  - intros w' tr Hok.
    destruct (listForResale_ok env t p w w' tr Hok) as (? & ? & ?). done.
  - intros Hcap. destruct (listForResale_above_cap env t p w Hcap) as [err Hrev].
    split; [by exists err|].
    destruct (step_revert w {| tx_env := env; tx_call := ListForResale t p |}
                err w [] Hrev) as [-> ->]. done.
  - intros. split; [by apply listForResale_cap_error | reflexivity].
Qed.

Lemma resale_price_capped_witness :
  resale_cap (run Scenario.ledger0 Scenario.sale) 1 = 130 ∧
  listForResale (tx_env (Scenario.call 20 0 8 (ListForResale 1 140))) 1 140
    (run Scenario.ledger0 Scenario.sale) =
  Revert (Require "Sobrepasa el maximo de reventa")
    (run Scenario.ledger0 Scenario.sale) [] ∧
  125 <= resale_cap (run Scenario.ledger0 Scenario.sale) 1.
Proof.
  assert (resale_cap (run Scenario.ledger0 Scenario.sale) 1 = 130) as Hcap
    by (vm_compute; reflexivity).
  destruct (resale_price_capped
              (tx_env (Scenario.call 20 0 8 (ListForResale 1 140))) 1 140
              (run Scenario.ledger0 Scenario.sale))
    as (_ & _ & _ & Hreject).
  destruct (resale_price_capped
              (tx_env (Scenario.call 20 0 8 (ListForResale 1 125))) 1 125
              (run Scenario.ledger0 Scenario.sale))
    as (_ & Haccept & _).
  split; [exact Hcap|]. split.
  - apply Hreject; try (vm_compute; reflexivity); try (vm_compute; discriminate).
    unfold in_uint. split; vm_compute; discriminate.
  - eapply Haccept. vm_compute. reflexivity.
Defined.

(** C5. Per-wallet limit.  Run any transactions from a fresh deployment;
    if the event is configured with [maxTicketsPerWallet = N > 0] (a
    [uint16]), then the number of successful primary purchases of a
    wallet for the event is the wallet's [bought] counter and is at most
    [N]; once it is [N], every further [buyPrimary] of that wallet for the
    event reverts before any effect (nothing is minted), and for an
    attempt on the active, upcoming event at the exact price the revert
    is a state conflict: "Limite de tickets por cartera alcanzado" while
    tickets remain. *)
Theorem wallet_limit_enforced d w0 txs e a N :
  deploy d = Some w0 →
  EventRegistry.maxTicketsPerWallet (getEvent (run w0 txs) e) = N →
  0 < N <= uint_max 16 →
  let w := run w0 txs in
  let count := Z.of_nat (length (primary_times w0 txs e a)) in
  bought (get_buyerState w e a) = count ∧
  count <= N ∧
  (count = N → ∀ env, sender env = a →
     let tx := {| tx_env := env; tx_call := BuyPrimary e |} in
     (∃ err, buyPrimary env e w = Revert err w []) ∧
     step w tx = w ∧ succeeded (receipt w tx) = false ∧
     (EventRegistry.organizer (getEvent w e) ≠ 0 →
      EventRegistry.active (getEvent w e) = true →
      now env < EventRegistry.date (getEvent w e) →
      value env = EventRegistry.basePriceWei (getEvent w e) →
      ∃ err, buyPrimary env e w = Revert err w [] ∧
             error_class err = StateConflictError ∧
             (get_minted w e < EventRegistry.totalTickets (getEvent w e) →
              err = Require "Limite de tickets por cartera alcanzado"))).
Proof.
  intros Hd HN Hrange. cbv zeta.
  assert (reachable w0) as Hr0 by (exists d, w0, []; done).
  pose proof (inv_events_reachable _ (reachable_run w0 txs Hr0)) as Hinv.
  pose proof (bought_counts e a txs w0) as Hcount.
  assert (bought (get_buyerState w0 e a) = 0) as Hzero.
  { apply deploy_inv in Hd. subst w0. getters. mproj. simpl.
    by rewrite sload_empty. }
  pose proof (bought_limit _ Hinv e a) as Hlimit. rewrite HN in Hlimit.
  split; [lia|]. split; [lia|].
  intros Hfull env Hsender. subst a.
  assert (∃ err, buyPrimary env e (run w0 txs) = Revert err (run w0 txs) [])
    as [err Hrev].
  { apply buyPrimary_rejects. do 5 right. left. lia. }
  split; [by exists err|].
  destruct (step_revert (run w0 txs)
              {| tx_env := env; tx_call := BuyPrimary e |} err _ [] Hrev)
    as [-> ->].
  split; [done|]. split; [done|].
  intros Hex Hact Hdate Hval.
  pose proof (buyPrimary_limit_reached env e (run w0 txs) Hex Hact Hdate Hval)
    as Hlim.
  rewrite HN in Hlim. specialize (Hlim Hrange ltac:(lia)).
  eexists. split; [exact Hlim|]. split.
  - by destruct (_ <? _).
  - intros Hleft. apply Z.ltb_lt in Hleft. by rewrite Hleft.
Qed.

Lemma wallet_limit_enforced_witness :
  deploy Scenario.d0 = Some Scenario.ledger0 ∧
  EventRegistry.maxTicketsPerWallet
    (getEvent (run Scenario.ledger0 Scenario.first_sale) 0) = 1 ∧
  Z.of_nat (length (primary_times Scenario.ledger0 Scenario.first_sale 0 20)) = 1 ∧
  ∃ err,
    buyPrimary (tx_env (Scenario.call 20 100 6 (BuyPrimary 0))) 0
      (run Scenario.ledger0 Scenario.first_sale) =
    Revert err (run Scenario.ledger0 Scenario.first_sale) [] ∧
    error_class err = StateConflictError ∧
    (get_minted (run Scenario.ledger0 Scenario.first_sale) 0 <
       EventRegistry.totalTickets
         (getEvent (run Scenario.ledger0 Scenario.first_sale) 0) →
     err = Require "Limite de tickets por cartera alcanzado").
Proof.
  assert (0 < 1 <= uint_max 16) as Hrange by (split; [reflexivity | by vm_compute]).
  destruct (wallet_limit_enforced Scenario.d0 Scenario.ledger0
              Scenario.first_sale 0 20 1 Scenario.deployed
              ltac:(vm_compute; reflexivity) Hrange)
    as (_ & _ & Hfull).
  split; [exact Scenario.deployed|].
  split; [vm_compute; reflexivity|].
  split; [vm_compute; reflexivity|].
  destruct (Hfull ltac:(vm_compute; reflexivity)
              (tx_env (Scenario.call 20 100 6 (BuyPrimary 0))) eq_refl)
    as (_ & _ & _ & Hclass).
  apply Hclass; try (vm_compute; reflexivity). by vm_compute.
Defined.

(** C6. Cooldown.  Run any transactions with valid block timestamps from
    a fresh deployment; if the event is configured with a cooldown
    [C > 0], the timestamps of any two successful primary purchases of
    one wallet for the event are at least [C] apart, the later one being
    the larger; [lastBuyTs] holds the timestamp of the last of them, and
    an attempt of that wallet earlier than that timestamp plus [C]
    reverts before any effect, leaving the ledger unchanged. *)
Theorem cooldown_between_purchases d w0 txs e a C :
  deploy d = Some w0 →
  Forall valid_block txs →
  EventRegistry.walletCooldown (getEvent (run w0 txs) e) = C →
  0 < C →
  let w := run w0 txs in
  let times := primary_times w0 txs e a in
  (∀ (i j : nat) ti tj, (i < j)%nat →
     times !! i = Some ti → times !! j = Some tj → ti + C <= tj) ∧
  (∀ t env, last times = Some t → sender env = a → now env < t + C →
     let tx := {| tx_env := env; tx_call := BuyPrimary e |} in
     lastBuyTs (get_buyerState w e a) = t ∧
     (∃ err, buyPrimary env e w = Revert err w []) ∧
     step w tx = w ∧ succeeded (receipt w tx) = false).
Proof.
  intros Hd Hv HC Hpos. cbv zeta.
  assert (reachable w0) as Hr0 by (exists d, w0, []; done).
  pose proof (inv_events_reachable _ Hr0) as Hinv.
  destruct (primary_spaced e a C txs w0 Hinv Hv HC Hpos) as [Hsp _].
  split; [by apply spaced_lookup|].
  intros t env Hlast Hsender Hearly.
  pose proof (last_purchase e a txs w0 t Hv Hlast) as Hts.
  assert (0 < t) as Htpos.
  { pose proof (primary_times_valid e a txs w0 Hv) as Hall.
    rewrite Forall_forall in Hall.
    apply last_Some in Hlast as [l' Hl']. apply (Hall t).
    rewrite Hl'. apply elem_of_app. right. by apply list_elem_of_singleton. }
  subst a.
  assert (∃ err, buyPrimary env e (run w0 txs) = Revert err (run w0 txs) [])
    as [err Hrev].
  { apply buyPrimary_rejects. do 6 right. rewrite HC, Hts. lia. }
  split; [done|]. split; [by exists err|].
  destruct (step_revert (run w0 txs)
              {| tx_env := env; tx_call := BuyPrimary e |} err _ [] Hrev)
    as [-> ->]. done.
Qed.

Lemma cooldown_between_purchases_witness :
  deploy Scenario.d0 = Some Scenario.ledger0 ∧
  Forall valid_block Scenario.cooled ∧
  EventRegistry.walletCooldown
    (getEvent (run Scenario.ledger0 Scenario.cooled) 1) = 60 ∧
  primary_times Scenario.ledger0 Scenario.cooled 1 20 = [100; 160] ∧
  100 + 60 <= 160 ∧
  ∃ err,
    buyPrimary (tx_env (Scenario.call 20 50 200 (BuyPrimary 1))) 1
      (run Scenario.ledger0 Scenario.cooled) =
    Revert err (run Scenario.ledger0 Scenario.cooled) [].
Proof.
  assert (Forall valid_block Scenario.cooled) as Hv.
  { unfold Scenario.cooled, Scenario.validated, Scenario.resold,
      Scenario.listed, Scenario.sale, Scenario.first_sale. simpl.
    repeat first
      [ apply Forall_nil_2
      | apply Forall_cons_2; [split; [reflexivity | by vm_compute] | ] ]. }
  assert (primary_times Scenario.ledger0 Scenario.cooled 1 20 = [100; 160])
    as Htimes by (vm_compute; reflexivity).
  destruct (cooldown_between_purchases Scenario.d0 Scenario.ledger0
              Scenario.cooled 1 20 60 Scenario.deployed Hv
              ltac:(vm_compute; reflexivity) ltac:(reflexivity))
    as [Hapart Hearly].
  split; [exact Scenario.deployed|]. split; [exact Hv|].
  split; [vm_compute; reflexivity|]. split; [exact Htimes|].
  split.
  - apply (Hapart 0%nat 1%nat 100 160); [lia | by rewrite Htimes..].
  - destruct (Hearly 160 (tx_env (Scenario.call 20 50 200 (BuyPrimary 1))))
      as (_ & Hrev & _); [by rewrite Htimes | reflexivity | reflexivity | exact Hrev].
Defined.

(** C7. [buyPrimary] is all-or-nothing.  A run that returns has passed the
    seven checks on the ledger it started from; a run in which one of
    them fails reverts before any effect; a run that reverts has either
    performed no effect at that point or had passed all seven checks (the
    revert then comes from the mint, its receiver or a counter); and
    whatever the reason of a revert, the transaction leaves the ledger
    (minted count, buyer counters, ticket registry) as it was. *)
Theorem buyPrimary_all_or_nothing env e w :
  let evt := getEvent w e in
  let st := get_buyerState w e (sender env) in
  let tx := {| tx_env := env; tx_call := BuyPrimary e |} in
  (∀ w' tr, buyPrimary env e w = Ok tt w' tr →
     EventRegistry.organizer evt ≠ 0 ∧
     EventRegistry.active evt = true ∧
     now env < EventRegistry.date evt ∧
     value env = EventRegistry.basePriceWei evt ∧
     get_minted w e < EventRegistry.totalTickets evt ∧
     (0 < EventRegistry.maxTicketsPerWallet evt →
      bought st + 1 <= EventRegistry.maxTicketsPerWallet evt) ∧
     (0 < EventRegistry.walletCooldown evt → lastBuyTs st ≠ 0 →
      lastBuyTs st + EventRegistry.walletCooldown evt <= now env)) ∧
  (EventRegistry.organizer evt = 0 ∨
   EventRegistry.active evt = false ∨
   EventRegistry.date evt <= now env ∨
   value env ≠ EventRegistry.basePriceWei evt ∨
   EventRegistry.totalTickets evt <= get_minted w e ∨
   (0 < EventRegistry.maxTicketsPerWallet evt ∧
    EventRegistry.maxTicketsPerWallet evt < bought st + 1) ∨
   (0 < EventRegistry.walletCooldown evt ∧ lastBuyTs st ≠ 0 ∧
    now env < lastBuyTs st + EventRegistry.walletCooldown evt) →
   ∃ err, buyPrimary env e w = Revert err w []) ∧
  (∀ err w' tr, buyPrimary env e w = Revert err w' tr →
     ((w' = w ∧ tr = []) ∨
      (EventRegistry.organizer evt ≠ 0 ∧
       EventRegistry.active evt = true ∧
       now env < EventRegistry.date evt ∧
       value env = EventRegistry.basePriceWei evt ∧
       get_minted w e < EventRegistry.totalTickets evt ∧
       (0 < EventRegistry.maxTicketsPerWallet evt →
        bought st + 1 <= EventRegistry.maxTicketsPerWallet evt) ∧
       (0 < EventRegistry.walletCooldown evt → lastBuyTs st ≠ 0 →
        lastBuyTs st + EventRegistry.walletCooldown evt <= now env))) ∧
     step w tx = w ∧ receipt w tx = Failure err ∧
     get_minted (step w tx) e = get_minted w e ∧
     get_buyerState (step w tx) e (sender env) = st ∧
     nft (step w tx) = nft w).
Proof.
  cbv zeta. split; [|split].
  - intros w' tr Hok.
    destruct (buyPrimary_ok env e w w' tr Hok)
      as (? & ? & ? & ? & ? & ? & ? & _). done.
  - apply buyPrimary_rejects.
  - intros err w' tr Hrev.
    split; [by apply (buyPrimary_revert_late env e w err w' tr)|].
    destruct (step_revert w {| tx_env := env; tx_call := BuyPrimary e |}
                err w' tr Hrev) as [-> ->]. done.
Qed.

(** Two reverts on concrete ledgers: one before any effect (the event is
    sold out), and one after the counter and the owner were written,
    where the receiver of the token reverts with data of its own, which
    is forwarded; both leave the ledger as it was. *)
Lemma buyPrimary_all_or_nothing_witness :
  (buyPrimary (tx_env (Scenario.call 22 100 8 (BuyPrimary 0))) 0
     (run Scenario.ledger0 Scenario.sale) =
   Revert (Require "No quedan tickets disponibles")
     (run Scenario.ledger0 Scenario.sale) [] ∧
   step (run Scenario.ledger0 Scenario.sale)
     (Scenario.call 22 100 8 (BuyPrimary 0)) =
   run Scenario.ledger0 Scenario.sale) ∧
  (∃ w' tr,
     buyPrimary (Scenario.refusing 21 100 7 (Require "Precio incorrecto")) 0
       (run Scenario.ledger0 Scenario.first_sale) =
     Revert (Require "Precio incorrecto") w' tr ∧
     get_minted w' 0 = get_minted (run Scenario.ledger0 Scenario.first_sale) 0 + 1 ∧
     step (run Scenario.ledger0 Scenario.first_sale)
       {| tx_env := Scenario.refusing 21 100 7 (Require "Precio incorrecto");
          tx_call := BuyPrimary 0 |} =
     run Scenario.ledger0 Scenario.first_sale).
Proof.
  split.
  - assert (buyPrimary (tx_env (Scenario.call 22 100 8 (BuyPrimary 0))) 0
              (run Scenario.ledger0 Scenario.sale) =
            Revert (Require "No quedan tickets disponibles")
              (run Scenario.ledger0 Scenario.sale) [])
      as Hrev by (vm_compute; reflexivity).
    split; [exact Hrev|].
    destruct (buyPrimary_all_or_nothing
                (tx_env (Scenario.call 22 100 8 (BuyPrimary 0))) 0
                (run Scenario.ledger0 Scenario.sale))
      as (_ & _ & Hroll).
    exact (proj1 (proj2 (Hroll _ _ _ Hrev))).
  - destruct (buyPrimary
                (Scenario.refusing 21 100 7 (Require "Precio incorrecto")) 0
                (run Scenario.ledger0 Scenario.first_sale))
      as [[] w' tr|err w' tr] eqn:Hrun; [by vm_compute in Hrun|].
    assert (err = Require "Precio incorrecto" ∧
            get_minted w' 0 =
              get_minted (run Scenario.ledger0 Scenario.first_sale) 0 + 1)
      as [-> Hminted].
    { vm_compute in Hrun. injection Hrun as <- <- _.
      split; vm_compute; reflexivity. }
    exists w', tr. split; [reflexivity|]. split; [exact Hminted|].
    destruct (buyPrimary_all_or_nothing
                (Scenario.refusing 21 100 7 (Require "Precio incorrecto")) 0
                (run Scenario.ledger0 Scenario.first_sale))
      as (_ & _ & Hroll).
    exact (proj1 (proj2 (Hroll _ _ _ Hrun))).
Defined.

(** C8. Payment is checked for equality.  [buyPrimary] returns only if
    [msg.value] equals the base price of the event, [buyFromResale] only
    if it equals the price of the listing; with any other amount either
    call reverts before any effect, and when the checks before the price
    check pass the revert is "Precio incorrecto", a payment mismatch. *)
Theorem payment_must_be_exact env w :
  (∀ e w' tr, buyPrimary env e w = Ok tt w' tr →
     value env = EventRegistry.basePriceWei (getEvent w e)) ∧
  (∀ e, value env ≠ EventRegistry.basePriceWei (getEvent w e) →
     (∃ err, buyPrimary env e w = Revert err w []) ∧
     (EventRegistry.organizer (getEvent w e) ≠ 0 →
      EventRegistry.active (getEvent w e) = true →
      now env < EventRegistry.date (getEvent w e) →
      buyPrimary env e w = Revert (Require "Precio incorrecto") w [])) ∧
  (∀ l w' tr, buyFromResale env l w = Ok tt w' tr →
     value env = priceWei (get_listing w l)) ∧
  (∀ l, value env ≠ priceWei (get_listing w l) →
     (∃ err, buyFromResale env l w = Revert err w []) ∧
     (active (get_listing w l) = true → seller (get_listing w l) ≠ 0 →
      buyFromResale env l w = Revert (Require "Precio incorrecto") w [])) ∧
  error_class (Require "Precio incorrecto") = PaymentMismatchError.
Proof.
  repeat split.
  - intros e w' tr Hok.
    destruct (buyPrimary_ok env e w w' tr Hok) as (_ & _ & _ & ? & _). done.
  - apply buyPrimary_rejects. auto.
  - intros. by apply buyPrimary_wrong_payment.
  - intros l w' tr Hok. by apply (buyFromResale_ok env l w w' tr).
  - by apply buyFromResale_wrong_payment.
  - by apply buyFromResale_wrong_payment.
Qed.

Lemma payment_must_be_exact_witness :
  buyPrimary (tx_env (Scenario.call 21 101 7 (BuyPrimary 0))) 0
    (run Scenario.ledger0 Scenario.first_sale) =
  Revert (Require "Precio incorrecto")
    (run Scenario.ledger0 Scenario.first_sale) [] ∧
  buyFromResale (tx_env (Scenario.call 23 124 9 (BuyFromResale 0))) 0
    (run Scenario.ledger0 Scenario.listed) =
  Revert (Require "Precio incorrecto") (run Scenario.ledger0 Scenario.listed) [].
Proof.
  split.
  - destruct (payment_must_be_exact
                (tx_env (Scenario.call 21 101 7 (BuyPrimary 0)))
                (run Scenario.ledger0 Scenario.first_sale))
      as (_ & Hprimary & _).
    apply (Hprimary 0); try (vm_compute; reflexivity); by vm_compute.
  - destruct (payment_must_be_exact
                (tx_env (Scenario.call 23 124 9 (BuyFromResale 0)))
                (run Scenario.ledger0 Scenario.listed))
      as (_ & _ & _ & Hresale & _).
    apply (Hresale 0); try (vm_compute; reflexivity); by vm_compute.
Defined.

(** C9. [markTicketUsed] returns only for a caller who is the organizer
    of the ticket's event, a validator registered for that event, or the
    owner of the market; for any other caller it reverts before any
    effect, so the ledger and the state of the ticket are unchanged, and
    when the event of the ticket exists the revert is "No autorizado para
    validar", an authorization error. *)
Theorem only_authorized_callers_validate env t w :
  let tx := {| tx_env := env; tx_call := MarkTicketUsed t |} in
  (∀ w' tr, markTicketUsed env t w = Ok tt w' tr →
     may_validate w (sender env) t) ∧
  (¬ may_validate w (sender env) t →
     (∃ err, markTicketUsed env t w = Revert err w []) ∧
     step w tx = w ∧ succeeded (receipt w tx) = false ∧
     TicketNFT.get_ticketState (nft (step w tx)) t =
       TicketNFT.get_ticketState (nft w) t ∧
     (EventRegistry.organizer
        (getEvent w (TicketNFT.get_ticketEvent (nft w) t)) ≠ 0 →
      markTicketUsed env t w =
        Revert (Require "No autorizado para validar") w [] ∧
      error_class (Require "No autorizado para validar") = AuthorizationError)).
Proof.
  cbv zeta. split.
  - intros w' tr Hok.
    by destruct (markTicketUsed_ok env t w w' tr Hok) as [? _].
  - intros Hno.
    destruct (markTicketUsed_unauthorized env t w Hno) as [[err Hrev] Hexact].
    split; [by exists err|].
    destruct (step_revert w {| tx_env := env; tx_call := MarkTicketUsed t |}
                err w [] Hrev) as [-> ->].
    repeat split; auto.
Qed.

Lemma only_authorized_callers_validate_witness :
  ¬ may_validate (run Scenario.ledger0 Scenario.validated) 40 1 ∧
  markTicketUsed (tx_env (Scenario.call 40 0 12 (MarkTicketUsed 1))) 1
    (run Scenario.ledger0 Scenario.validated) =
  Revert (Require "No autorizado para validar")
    (run Scenario.ledger0 Scenario.validated) [].
Proof.
  assert (¬ may_validate (run Scenario.ledger0 Scenario.validated) 40 1) as Hno.
  { unfold may_validate. vm_compute. intros [H|[H|H]]; discriminate H. }
  destruct (only_authorized_callers_validate
              (tx_env (Scenario.call 40 0 12 (MarkTicketUsed 1))) 1
              (run Scenario.ledger0 Scenario.validated))
    as (_ & Hdenied).
  destruct (Hdenied Hno) as (_ & _ & _ & _ & Hexact).
  split; [exact Hno|].
  apply Hexact. by vm_compute.
Defined.

(** C10 as stated fails: the public getter [ticketState] answers [None]
    for an id that was never minted.  After the two sales of the run
    above, tickets 1 and 2 are [Valid] and the getter returns [None] for
    ids 3 and 0. *)
Lemma unminted_ticket_reads_None :
  reachable (run Scenario.ledger0 Scenario.sale) ∧
  TicketNFT.get_ticketState (nft (run Scenario.ledger0 Scenario.sale)) 2
    = TicketNFT.Valid ∧
  TicketNFT.get_ticketState (nft (run Scenario.ledger0 Scenario.sale)) 3
    = TicketNFT.None ∧
  TicketNFT.get_ticketState (nft (run Scenario.ledger0 Scenario.sale)) 0
    = TicketNFT.None.
Proof.
  split; [apply Scenario.scenario_reachable|].
  repeat split; vm_compute; reflexivity.
Qed.

(** C10, amended.  In every reachable ledger the state the getter returns
    for a minted ticket (an id from 1 up to the last id handed out) is
    [Valid] or [Used], and the state it returns for any other id is
    [None]; no function ever stores [Cancelled]. *)
Theorem observable_ticket_states w t :
  reachable w →
  (minted_ticket (nft w) t →
   TicketNFT.get_ticketState (nft w) t = TicketNFT.Valid ∨
   TicketNFT.get_ticketState (nft w) t = TicketNFT.Used) ∧
  (¬ minted_ticket (nft w) t →
   TicketNFT.get_ticketState (nft w) t = TicketNFT.None) ∧
  TicketNFT.get_ticketState (nft w) t ≠ TicketNFT.Cancelled.
Proof.
  intros Hr. pose proof (inv_tickets_reachable w Hr) as [Hn Hu Hm].
  split; [|split].
  - intros Hin. by destruct (Hm t Hin).
  - apply Hu.
  - destruct (decide (minted_ticket (nft w) t)) as [Hin|Hout].
    + destruct (Hm t Hin) as [[-> | ->] _]; done.
    + by rewrite (Hu t Hout).
Qed.

Lemma observable_ticket_states_witness :
  reachable (run Scenario.ledger0 Scenario.validated) ∧
  minted_ticket (nft (run Scenario.ledger0 Scenario.validated)) 2 ∧
  (TicketNFT.get_ticketState (nft (run Scenario.ledger0 Scenario.validated)) 2
     = TicketNFT.Valid ∨
   TicketNFT.get_ticketState (nft (run Scenario.ledger0 Scenario.validated)) 2
     = TicketNFT.Used).
Proof.
  assert (minted_ticket (nft (run Scenario.ledger0 Scenario.validated)) 2) as Hm.
  { unfold minted_ticket.
    replace (TicketNFT._nextTokenId (nft (run Scenario.ledger0 Scenario.validated)))
      with 2 by (vm_compute; reflexivity).
    lia. }
  split; [apply Scenario.scenario_reachable|]. split; [exact Hm|].
  destruct (observable_ticket_states
              (run Scenario.ledger0 Scenario.validated) 2
              (Scenario.scenario_reachable Scenario.validated)) as (Hminted & _).
  exact (Hminted Hm).
Defined.

(** * Further properties of the contracts

    The registry's entry points, the token's access control and the
    market's escrow, prices, counters and successful runs. *)

(** ** EventRegistry *)

Lemma string_nonempty (s : string) :
  (0 <? Z.of_nat (String.length s)) = true ↔ s ≠ "".
Proof. destruct s; simpl; [split; [done | congruence] | split; [done | intros; apply Z.ltb_lt; lia]]. Qed.

(** X1. [createEvent] returns only if the name is not empty, the base
    price and the capacity are positive, the resale factor is at least
    100 and a per-wallet limit, if set, is at most the capacity; with
    arguments of their declared types these conditions are enough for it
    to return.  It returns the next event id and stores under it exactly
    the arguments, with the caller as organizer and the event active;
    [getEvent] reads them back; other events, validators and the owner
    are untouched; a revert leaves the registry as it was. *)
Theorem createEvent_round_trip sender name date location basePriceWei
    maxResaleFactor totalTickets metadataCid maxTicketsPerWallet
    walletCooldown s :
  let created := EventRegistry.createEvent sender name date location
    basePriceWei maxResaleFactor totalTickets metadataCid
    maxTicketsPerWallet walletCooldown s in
  let conditions :=
    name ≠ "" ∧ 0 < basePriceWei ∧ 0 < totalTickets ∧
    100 <= maxResaleFactor ∧
    (0 < maxTicketsPerWallet → maxTicketsPerWallet <= totalTickets) ∧
    in_uint 256 (EventRegistry.nextEventId s + 1) in
  ((∃ eventId s' tr, created = Ok eventId s' tr) → conditions) ∧
  (conditions →
   in_uint 256 date ∧ in_uint 256 basePriceWei ∧ in_uint 8 maxResaleFactor ∧
   in_uint 256 totalTickets ∧ in_uint 16 maxTicketsPerWallet ∧
   in_uint 32 walletCooldown →
   ∃ eventId s' tr, created = Ok eventId s' tr) ∧
  (∀ eventId s' tr, created = Ok eventId s' tr →
   eventId = EventRegistry.nextEventId s ∧
   EventRegistry.nextEventId s' = eventId + 1 ∧
   EventRegistry.getEvent s' eventId =
     {| EventRegistry.id := eventId; EventRegistry.name := name;
        EventRegistry.date := date; EventRegistry.location := location;
        EventRegistry.basePriceWei := basePriceWei;
        EventRegistry.maxResaleFactor := maxResaleFactor;
        EventRegistry.totalTickets := totalTickets;
        EventRegistry.metadataCid := metadataCid;
        EventRegistry.organizer := sender; EventRegistry.active := true;
        EventRegistry.maxTicketsPerWallet := maxTicketsPerWallet;
        EventRegistry.walletCooldown := walletCooldown |} ∧
   (∀ e, e ≠ eventId → EventRegistry.getEvent s' e = EventRegistry.getEvent s e) ∧
   (∀ e a, EventRegistry.isValidator s' e a = EventRegistry.isValidator s e a) ∧
   EventRegistry.owner s' = EventRegistry.owner s) ∧
  (∀ err s' tr, created = Revert err s' tr → s' = s ∧ tr = []).
Proof.
  cbv zeta. split; [|split; [|split]].
  - intros (eventId & s' & tr & H). exec H; bprop.
    all: rewrite <- string_nonempty; repeat split; try done; lia.
  - intros (Hn & Hb & Ht & Hf & Hw & Hr) _. apply string_nonempty in Hn.
    apply in_uintb_spec in Hr. mred; mproj. rewrite Hn.
    repeat (match goal with
            | |- context [if ?c then _ else _] => destruct c eqn:?
            end; mproj; bprop; try done; try lia; try congruence;
            try (do 3 eexists; reflexivity)).
  - intros eventId s' tr H. exec H; bprop; sload_cases.
    all: repeat split; try done; intros; by rewrite sload_insert_ne.
  - intros err s' tr. mred; mproj.
    repeat (match goal with
            | |- context [if ?c then _ else _] => destruct c eqn:?
            end; mproj; try discriminate).
    all: by intros [= <- <- <-].
Qed.
(** Registered events carry their own id, and a validator is only ever
    registered for an existing event and is never the zero address. *)
Record inv_registry (w : Ledger) : Prop := {
  event_id : ∀ e, EventRegistry.organizer (getEvent w e) ≠ 0 →
    EventRegistry.id (getEvent w e) = e;
  validator_event : ∀ e a, EventRegistry.isValidator (registry w) e a = true →
    EventRegistry.organizer (getEvent w e) ≠ 0 ∧ a ≠ 0
}.

Lemma inv_registry_deploy d w0 : deploy d = Some w0 → inv_registry w0.
Proof.
  intros ->%deploy_inv. split; getters; mproj; simpl.
  - intros e He. by rewrite sload_empty in He.
  - intros e a Hv. by rewrite sload_empty in Hv.
Qed.

Lemma inv_registry_step w tx :
  inv_events w → inv_registry w → inv_registry (step w tx).
Proof.
  intros [Hn He _ _ _ _ _] [Hid Hval]. getters.
  assert (Hfresh : EventRegistry.organizer
    (sload (EventRegistry.events (registry w))
       (EventRegistry.nextEventId (registry w))) = 0) by (apply He; lia).
  step_cases w tx; try (by split); bprop.
  all: split; getters; mproj; intros; sload_cases; mproj; eauto; try lia.
  all: try (exfalso; match goal with
            | H : sload (EventRegistry._validators _) _ = true |- _ =>
                apply Hval in H; destruct H; congruence
            end).
  all: try (split; [congruence | done]).
  all: try (match goal with
            | H : sload (EventRegistry._validators _) _ = true |- _ =>
                apply Hval in H; destruct H; done
            end).
Qed.

Lemma inv_registry_reachable w : reachable w → inv_registry w.
Proof.
  intros Hr.
  cut (inv_events w ∧ inv_registry w); [by intros [_ ?]|].
  revert w Hr. apply (reachable_invariant (λ w, inv_events w ∧ inv_registry w)).
  - intros d w0 Hd. split; [by eapply inv_events_deploy | by eapply inv_registry_deploy].
  - intros w tx [H1 H2]. split; [by apply inv_events_step | by apply inv_registry_step].
Qed.

(** X2. An event of a reachable ledger is stored under its own id, which
    is below [nextEventId], and no later transaction changes its
    configuration: in particular organizer, capacity and base price stay
    as they were created. *)
Theorem event_configuration_fixed w e txs :
  reachable w →
  EventRegistry.organizer (getEvent w e) ≠ 0 →
  EventRegistry.id (getEvent w e) = e ∧
  0 <= e < EventRegistry.nextEventId (registry w) ∧
  config (getEvent (run w txs) e) = config (getEvent w e) ∧
  EventRegistry.organizer (getEvent (run w txs) e) =
    EventRegistry.organizer (getEvent w e) ∧
  EventRegistry.totalTickets (getEvent (run w txs) e) =
    EventRegistry.totalTickets (getEvent w e) ∧
  EventRegistry.basePriceWei (getEvent (run w txs) e) =
    EventRegistry.basePriceWei (getEvent w e).
Proof.
  intros Hr Hex. pose proof (inv_events_reachable w Hr) as Hinv.
  pose proof (event_config_run txs w e Hinv Hex) as Hcfg.
  split; [by apply (event_id w (inv_registry_reachable w Hr))|].
  split.
  { destruct (decide (0 <= e < EventRegistry.nextEventId (registry w))); [done|].
    by apply (event_fresh w Hinv) in n. }
  split; [done|].
  repeat split.
  - by apply (f_equal EventRegistry.organizer) in Hcfg.
  - by apply (f_equal EventRegistry.totalTickets) in Hcfg.
  - by apply (f_equal EventRegistry.basePriceWei) in Hcfg.
Qed.

Lemma event_configuration_fixed_witness :
  reachable (run Scenario.ledger0 Scenario.first_sale) ∧
  EventRegistry.organizer (getEvent (run Scenario.ledger0 Scenario.first_sale) 0) = 10 ∧
  EventRegistry.totalTickets
    (getEvent (run (run Scenario.ledger0 Scenario.first_sale)
                 [Scenario.call 10 0 6 (SetEventActive 0 false)]) 0) =
  EventRegistry.totalTickets (getEvent (run Scenario.ledger0 Scenario.first_sale) 0).
Proof.
  split; [apply Scenario.scenario_reachable|].
  split; [vm_compute; reflexivity|].
  destruct (event_configuration_fixed
              (run Scenario.ledger0 Scenario.first_sale) 0
              [Scenario.call 10 0 6 (SetEventActive 0 false)]
              (Scenario.scenario_reachable Scenario.first_sale)
              ltac:(by vm_compute))
    as (_ & _ & _ & _ & Htotal & _).
  exact Htotal.
Defined.

(** X3. [setEventActive] returns exactly when the event exists and the
    caller is its organizer or the registry's owner; it reverts with
    "Evento inexistente" for a missing event and with "Solo organizer u
    owner" for any other caller.  A run that returns sets the flag and
    nothing else (configuration, other events, validators, next id), and
    setting the former flag again gives back the former registry. *)
Theorem setEventActive_effect sender e flag s :
  let evt := EventRegistry.getEvent s e in
  let call := EventRegistry.setEventActive sender e flag s in
  ((∃ s' tr, call = Ok tt s' tr) ↔
   EventRegistry.organizer evt ≠ 0 ∧
   (sender = EventRegistry.organizer evt ∨ sender = EventRegistry.owner s)) ∧
  (EventRegistry.organizer evt = 0 →
   call = Revert (Require "Evento inexistente") s []) ∧
  (EventRegistry.organizer evt ≠ 0 →
   sender ≠ EventRegistry.organizer evt → sender ≠ EventRegistry.owner s →
   call = Revert (Require "Solo organizer u owner") s []) ∧
  (∀ s' tr, call = Ok tt s' tr →
   EventRegistry.active (EventRegistry.getEvent s' e) = flag ∧
   config (EventRegistry.getEvent s' e) = config evt ∧
   (∀ e', e' ≠ e → EventRegistry.getEvent s' e' = EventRegistry.getEvent s e') ∧
   (∀ e' a, EventRegistry.isValidator s' e' a = EventRegistry.isValidator s e' a) ∧
   EventRegistry.nextEventId s' = EventRegistry.nextEventId s ∧
   (∀ s'' tr', EventRegistry.setEventActive sender e
                 (EventRegistry.active evt) s' = Ok tt s'' tr' → s'' = s)).
Proof.
  cbv zeta. unfold config. split; [split|split; [|split]].
  - intros (s' & tr & H). exec H; bprop.
    split; [done|].
    match goal with H : (_ || _) = true |- _ => apply orb_true_iff in H as [H|H] end;
      bprop; auto.
  - intros [Hex Hauth]. getters. mred; mproj.
    repeat (match goal with
            | |- context [if ?c then _ else _] => destruct c eqn:?
            end; mproj; bprop; try done; try (destruct Hauth; congruence);
            eauto).
  - intros Hno. getters. mflow.
  - intros Hex Ho Hw. getters. mflow.
  - intros s' tr H. exec H; bprop; sload_cases.
    all: repeat split; try done.
    all: try (intros e' Hne; by rewrite sload_insert_ne).
    intros s'' tr' [= <- _]. destruct s as [own nxt evs vals].
    unfold EventRegistry.set_events. simpl in *. f_equal.
    rewrite insert_insert_eq.
    destruct (evs !! e) as [evt|] eqn:Hlook.
    + unfold sload. rewrite Hlook. simpl. apply insert_id.
      rewrite Hlook. f_equal. by destruct evt.
    + exfalso. unfold sload in *. rewrite Hlook in *. simpl in *. done.
Qed.

(** X4. [setValidator] returns exactly when the event exists, the caller
    is its organizer or the registry's owner, and the validator is not
    the zero address (else "Validador no valido"); it then sets that one
    entry, which [isValidator] reads back, and leaves every other entry
    and every event untouched; a revert leaves the registry as it was. *)
Theorem setValidator_effect sender e validator flag s :
  let evt := EventRegistry.getEvent s e in
  let call := EventRegistry.setValidator sender e validator flag s in
  ((∃ s' tr, call = Ok tt s' tr) ↔
   EventRegistry.organizer evt ≠ 0 ∧
   (sender = EventRegistry.organizer evt ∨ sender = EventRegistry.owner s) ∧
   validator ≠ 0) ∧
  (EventRegistry.organizer evt ≠ 0 →
   (sender = EventRegistry.organizer evt ∨ sender = EventRegistry.owner s) →
   validator = 0 →
   call = Revert (Require "Validador no valido") s []) ∧
  (∀ s' tr, call = Ok tt s' tr →
   EventRegistry.isValidator s' e validator = flag ∧
   (∀ e' a, (e', a) ≠ (e, validator) →
      EventRegistry.isValidator s' e' a = EventRegistry.isValidator s e' a) ∧
   (∀ e', EventRegistry.getEvent s' e' = EventRegistry.getEvent s e') ∧
   EventRegistry.nextEventId s' = EventRegistry.nextEventId s) ∧
  (∀ err s' tr, call = Revert err s' tr → s' = s ∧ tr = []).
Proof.
  cbv zeta. split; [split|split; [|split]].
  - intros (s' & tr & H). exec H; bprop.
    repeat split; try done.
    match goal with H : (_ || _) = true |- _ => apply orb_true_iff in H as [H|H] end;
      bprop; auto.
  - intros (Hex & Hauth & Hv). getters. mred; mproj.
    repeat (match goal with
            | |- context [if ?c then _ else _] => destruct c eqn:?
            end; mproj; bprop; try done; try (destruct Hauth; congruence);
            eauto).
  - intros Hex Hauth Hv. getters. mred; mproj.
    repeat (match goal with
            | |- context [if ?c then _ else _] => destruct c eqn:?
            end; mproj; bprop; try done; try (destruct Hauth; congruence)).
  - intros s' tr H. exec H; bprop; sload_cases.
    repeat split; try done.
    intros e' a Hne. by rewrite sload_insert_ne.
  - intros err s' tr. getters. mred; mproj.
    repeat (match goal with
            | |- context [if ?c then _ else _] => destruct c eqn:?
            end; mproj; try discriminate).
    all: by intros [= <- <- <-].
Qed.

(** X5. In a reachable ledger a validator is registered only for an
    existing event and is never the zero address;
    [isOrganizerOrValidator] holds exactly of the organizer and the
    validators of an existing event, is false for a missing event, and
    whoever it holds of may validate the tickets of that event. *)
Theorem validators_are_registered w e a :
  reachable w →
  (EventRegistry.isValidator (registry w) e a = true →
   EventRegistry.organizer (getEvent w e) ≠ 0 ∧ a ≠ 0) ∧
  (EventRegistry.isOrganizerOrValidator (registry w) e a = true ↔
   EventRegistry.organizer (getEvent w e) ≠ 0 ∧
   (a = EventRegistry.organizer (getEvent w e) ∨
    EventRegistry.isValidator (registry w) e a = true)) ∧
  (EventRegistry.organizer (getEvent w e) = 0 →
   EventRegistry.isOrganizerOrValidator (registry w) e a = false ∧
   EventRegistry.isValidator (registry w) e a = false) ∧
  (EventRegistry.isOrganizerOrValidator (registry w) e a = true →
   ∀ t, TicketNFT.get_ticketEvent (nft w) t = e → may_validate w a t).
Proof.
  intros Hr. pose proof (inv_registry_reachable w Hr) as [_ Hval].
  assert (EventRegistry.isOrganizerOrValidator (registry w) e a = true ↔
          EventRegistry.organizer (getEvent w e) ≠ 0 ∧
          (a = EventRegistry.organizer (getEvent w e) ∨
           EventRegistry.isValidator (registry w) e a = true)) as Hiff.
  { unfold EventRegistry.isOrganizerOrValidator, EventRegistry.isValidator,
      getEvent.
    destruct (_ =? 0) eqn:H0; bprop.
    - split; [done | by intros [? _]].
    - destruct (a =? _) eqn:H1; bprop.
      + split; auto.
      + split; [auto | by intros [_ [?|?]]]. }
  split; [apply Hval|]. split; [exact Hiff|]. split.
  - intros Hno. split.
    + apply not_true_is_false. rewrite Hiff. by intros [? _].
    + apply not_true_is_false. intros Hv. by apply Hval in Hv as [? _].
  - intros Hov t Ht. apply Hiff in Hov as [_ Hov].
    unfold may_validate. rewrite Ht. destruct Hov; auto.
Qed.

Lemma validators_are_registered_witness :
  reachable (run Scenario.ledger0 Scenario.validated) ∧
  EventRegistry.isValidator (registry (run Scenario.ledger0 Scenario.validated)) 0 30
    = true ∧
  EventRegistry.isOrganizerOrValidator
    (registry (run Scenario.ledger0 Scenario.validated)) 0 30 = true ∧
  may_validate (run Scenario.ledger0 Scenario.validated) 30 1.
Proof.
  destruct (validators_are_registered
              (run Scenario.ledger0 Scenario.validated) 0 30
              (Scenario.scenario_reachable Scenario.validated))
    as (_ & _ & _ & Hmay).
  split; [apply Scenario.scenario_reachable|].
  split; [vm_compute; reflexivity|]. split; [vm_compute; reflexivity|].
  apply Hmay; vm_compute; reflexivity.
Defined.

(** ** TicketNFT *)

(** X6. The token's market is assigned once.  [setMarket] returns
    exactly when the caller is the token's owner, the address is not zero
    and no market is assigned yet; it then records the address and
    touches no ticket; a second assignment reverts with "Market ya
    asignado"; and once a market is assigned, no transaction changes
    it. *)
Theorem market_assigned_once :
  (∀ sender m s,
     (∃ s' tr, TicketNFT.setMarket sender m s = Ok tt s' tr) ↔
     sender = TicketNFT.owner s ∧ m ≠ 0 ∧ TicketNFT.market s = 0) ∧
  (∀ sender m s s' tr, TicketNFT.setMarket sender m s = Ok tt s' tr →
     TicketNFT.market s' = m ∧
     TicketNFT._nextTokenId s' = TicketNFT._nextTokenId s ∧
     (∀ t, TicketNFT._ownerOf s' t = TicketNFT._ownerOf s t ∧
           TicketNFT.get_ticketState s' t = TicketNFT.get_ticketState s t ∧
           TicketNFT.get_ticketEvent s' t = TicketNFT.get_ticketEvent s t)) ∧
  (∀ sender m s, sender = TicketNFT.owner s → m ≠ 0 → TicketNFT.market s ≠ 0 →
     TicketNFT.setMarket sender m s =
       Revert (Require "Market ya asignado") s []) ∧
  (∀ w txs, TicketNFT.market (nft w) ≠ 0 →
     TicketNFT.market (nft (run w txs)) = TicketNFT.market (nft w)).
Proof.
  split; [|split; [|split]].
  - intros sender m s. split.
    + intros (s' & tr & H). exec H; bprop. done.
    + intros (Ho & Hm & Hz). mred; mproj.
      repeat (match goal with
              | |- context [if ?c then _ else _] => destruct c eqn:?
              end; mproj; bprop; try done; try congruence; eauto).
  - intros sender m s s' tr H. exec H; bprop. done.
  - intros sender m s Ho Hm Hz. mflow.
  - intros w txs. revert w. induction txs as [|tx txs IH]; intros w Hm; simpl; [done|].
    assert (TicketNFT.market (nft (step w tx)) = TicketNFT.market (nft w)) as Hs.
    { step_cases w tx; try done; bprop; congruence. }
    rewrite IH; congruence.
Qed.

(** X7. Only the market moves, mints or uses tickets.  For a caller other
    than the token's market: every [transferFrom] reverts and leaves the
    token contract unchanged (with [ERC721InsufficientApproval] for an
    existing ticket and a receiver other than zero), even when the caller
    owns the ticket; [mintTicket] and [markUsed] revert with "Solo el
    mercado puede llamar". *)
Theorem only_market_moves_tickets sender s :
  sender ≠ 0 → sender ≠ TicketNFT.market s →
  (∀ from to t, ∃ err, TicketNFT.transferFrom sender from to t s = Revert err s []) ∧
  (∀ from to t, to ≠ 0 → TicketNFT._ownerOf s t ≠ 0 →
     TicketNFT.transferFrom sender from to t s =
       Revert (Custom "ERC721InsufficientApproval") s []) ∧
  (∀ to e ok reason, TicketNFT.mintTicket sender to e ok reason s =
     Revert (Require "Solo el mercado puede llamar") s []) ∧
  (∀ t, TicketNFT.markUsed sender t s =
     Revert (Require "Solo el mercado puede llamar") s []).
Proof.
  intros H0 Hm. repeat split.
  - intros from to t. getters. mred; mproj.
    repeat (match goal with
            | |- context [if ?c then _ else _] => destruct c eqn:?
            end; mproj; bprop; try done; try congruence;
            try (eexists; reflexivity)).
  - intros from to t Hto Ho. getters. mflow.
  - intros to e ok reason. mflow.
  - intros t. mflow.
Qed.

Lemma only_market_moves_tickets_witness :
  TicketNFT._ownerOf (nft (run Scenario.ledger0 Scenario.sale)) 1 = 20 ∧
  TicketNFT.transferFrom 20 20 21 1 (nft (run Scenario.ledger0 Scenario.sale)) =
  Revert (Custom "ERC721InsufficientApproval")
    (nft (run Scenario.ledger0 Scenario.sale)) [].
Proof.
  destruct (only_market_moves_tickets 20
              (nft (run Scenario.ledger0 Scenario.sale))
              ltac:(by vm_compute) ltac:(by vm_compute))
    as (_ & Hdenied & _).
  split; [vm_compute; reflexivity|].
  apply Hdenied; by vm_compute.
Defined.

(** X8. [mintTicket], called by the market, returns exactly when the
    receiver is not the zero address, the next id fits 256 bits and has
    no owner, and the receiver accepts the token; the ticket minted has
    the next id, belongs to the receiver, is [Valid] and records the
    event; every other ticket is untouched. *)
Theorem mintTicket_effect to e ok reason s :
  let next := TicketNFT._nextTokenId s + 1 in
  let call := TicketNFT.mintTicket (TicketNFT.market s) to e ok reason s in
  ((∃ t s' tr, call = Ok t s' tr) ↔
   to ≠ 0 ∧ in_uint 256 next ∧ TicketNFT._ownerOf s next = 0 ∧ ok = true) ∧
  (∀ t s' tr, call = Ok t s' tr →
   t = next ∧ TicketNFT._nextTokenId s' = next ∧
   TicketNFT._ownerOf s' t = to ∧
   TicketNFT.get_ticketState s' t = TicketNFT.Valid ∧
   TicketNFT.get_ticketEvent s' t = e ∧
   (∀ t', t' ≠ t →
      TicketNFT._ownerOf s' t' = TicketNFT._ownerOf s t' ∧
      TicketNFT.get_ticketState s' t' = TicketNFT.get_ticketState s t' ∧
      TicketNFT.get_ticketEvent s' t' = TicketNFT.get_ticketEvent s t')).
Proof.
  cbv zeta. split; [split|].
  - intros (t & s' & tr & H). exec H; bprop. done.
  - intros (Hto & Hr & Ho & ->). getters. apply in_uintb_spec in Hr.
    mred; mproj.
    repeat (match goal with
            | |- context [if ?c then _ else _] => destruct c eqn:?
            end; mproj; bprop; try done; try congruence; eauto).
  - intros t s' tr H. exec H; bprop; sload_cases.
    repeat split; try done; by rewrite sload_insert_ne.
Qed.

Lemma ticket_identity_step w tx t :
  inv_tickets (nft w) → minted_ticket (nft w) t →
  minted_ticket (nft (step w tx)) t ∧
  TicketNFT.get_ticketEvent (nft (step w tx)) t =
    TicketNFT.get_ticketEvent (nft w) t.
Proof.
  intros [Hn Hu Hm] Hin. unfold minted_ticket in *. getters.
  step_cases w tx; try done; bprop; sload_cases; try done; try lia.
  all: split; [lia|]; rewrite ?sload_insert_ne by lia; done.
Qed.

(** X9. A minted ticket of a reachable ledger stays minted through every
    later transaction, keeps the event it was minted for, always has an
    owner and never reads [None]. *)
Theorem ticket_identity_fixed w t txs :
  reachable w → minted_ticket (nft w) t →
  minted_ticket (nft (run w txs)) t ∧
  TicketNFT.get_ticketEvent (nft (run w txs)) t =
    TicketNFT.get_ticketEvent (nft w) t ∧
  TicketNFT._ownerOf (nft (run w txs)) t ≠ 0 ∧
  TicketNFT.get_ticketState (nft (run w txs)) t ≠ TicketNFT.None.
Proof.
  intros Hr Hin.
  assert (minted_ticket (nft (run w txs)) t ∧
          TicketNFT.get_ticketEvent (nft (run w txs)) t =
            TicketNFT.get_ticketEvent (nft w) t) as [Hin' Hev].
  { pose proof (inv_tickets_reachable w Hr) as Hinv. clear Hr.
    revert w Hinv Hin. induction txs as [|tx txs IH]; intros w Hinv Hin; simpl; [done|].
    destruct (ticket_identity_step w tx t Hinv Hin) as [Hin1 Hev1].
    destruct (IH (step w tx) (inv_tickets_step _ _ Hinv) Hin1) as [? ?].
    split; [done | congruence]. }
  pose proof (inv_tickets_reachable _ (reachable_run w txs Hr)) as Hinv'.
  destruct (ticket_minted _ Hinv' t Hin') as [Hst Ho].
  split; [done|]. split; [done|]. split; [done|].
  intros Hnone. destruct Hst; congruence.
Qed.

Lemma ticket_identity_fixed_witness :
  reachable (run Scenario.ledger0 Scenario.sale) ∧
  minted_ticket (nft (run Scenario.ledger0 Scenario.sale)) 1 ∧
  TicketNFT.get_ticketEvent (nft (run Scenario.ledger0 Scenario.resold)) 1 =
  TicketNFT.get_ticketEvent (nft (run Scenario.ledger0 Scenario.sale)) 1.
Proof.
  assert (minted_ticket (nft (run Scenario.ledger0 Scenario.sale)) 1) as Hm.
  { unfold minted_ticket.
    replace (TicketNFT._nextTokenId (nft (run Scenario.ledger0 Scenario.sale)))
      with 2 by (vm_compute; reflexivity).
    lia. }
  split; [apply Scenario.scenario_reachable|]. split; [exact Hm|].
  destruct (ticket_identity_fixed (run Scenario.ledger0 Scenario.sale) 1
              [Scenario.call 20 0 8 (ListForResale 1 125);
               Scenario.call 23 125 9 (BuyFromResale 0)]
              (Scenario.scenario_reachable Scenario.sale) Hm)
    as (_ & Hev & _).
  unfold Scenario.resold, Scenario.listed. rewrite <- app_assoc, run_app.
  exact Hev.
Defined.

(** ** TicketMarket *)

(** A transaction sent by an account other than the zero address and the
    market contract itself. *)
Definition external (w : Ledger) (tx : Tx) : Prop :=
  sender (tx_env tx) ≠ 0 ∧ sender (tx_env tx) ≠ this (market w).

Lemma this_step w tx : this (market (step w tx)) = this (market w).
Proof. step_cases w tx; done. Qed.

(** The market has a nonzero address; the ticket of an active listing is
    held by the market, which is the token's market; the listing has a
    seller; and no two active listings offer one ticket. *)
Record inv_escrow (w : Ledger) : Prop := {
  market_nonzero : this (market w) ≠ 0;
  listing_escrowed : ∀ l, active (get_listing w l) = true →
    TicketNFT._ownerOf (nft w) (tokenId (get_listing w l)) = this (market w) ∧
    TicketNFT.market (nft w) = this (market w);
  listing_seller : ∀ l, active (get_listing w l) = true →
    seller (get_listing w l) ≠ 0;
  listing_unique : ∀ l l', active (get_listing w l) = true →
    active (get_listing w l') = true →
    tokenId (get_listing w l') = tokenId (get_listing w l) → l' = l
}.

Lemma sload_insert `{Countable K} {V} `{Zero V} (m : gmap K V) k k' v :
  sload (<[k:=v]> m) k' = if decide (k = k') then v else sload m k'.
Proof.
  case_decide; [subst; apply sload_insert_eq | by apply sload_insert_ne].
Qed.

Ltac escrow_facts He :=
  repeat match goal with
  | H : active (sload (listings (market _)) ?l) = true |- _ =>
      let F := fresh "F" in
      pose proof (He l H) as F; destruct F; revert H
  end; intros.

Lemma inv_escrow_step w tx :
  inv_escrow w → external w tx → inv_escrow (step w tx).
Proof.
  intros [Hz He Hsel Hu] [Hs0 Hst]. getters.
  step_cases w tx; try (by split); bprop.
  all: split; getters; mproj; intros; try done.
  all: repeat rewrite sload_insert in *; repeat case_decide; mproj; subst.
  all: escrow_facts He; try done; try congruence.
  all: try (split; congruence).
  all: try (eapply Hu; [| |eassumption]; congruence).
  all: try (match goal with
            | H : active (sload (listings (market _)) ?l) = true
              |- seller _ ≠ 0 => exact (Hsel l H)
            end).
  exfalso. match goal with Hn : ?a ≠ ?b |- _ => apply Hn; eapply Hu; eassumption end.
Qed.

Lemma inv_escrow_run txs : ∀ w,
  inv_escrow w → Forall (external w) txs → inv_escrow (run w txs).
Proof.
  induction txs as [|tx txs IH]; intros w Hinv Hext; simpl; [done|].
  apply Forall_cons in Hext as [Hx Hext].
  apply IH; [by apply inv_escrow_step|].
  eapply Forall_impl; [exact Hext|]. unfold external. intros tx'.
  by rewrite this_step.
Qed.

Lemma inv_escrow_deploy d w0 :
  deploy d = Some w0 → market_address d ≠ 0 → inv_escrow w0.
Proof.
  intros ->%deploy_inv Hm. split; getters; mproj; simpl; try done.
Qed.

(** X10. Escrow.  After any transactions sent by accounts other than
    the zero address and the market itself, the ticket of every active
    listing is owned by the market contract, the market is the token's
    market, and no other active listing offers the same ticket. *)
Theorem listed_tickets_are_escrowed d w0 txs l :
  deploy d = Some w0 → market_address d ≠ 0 →
  Forall (λ tx, sender (tx_env tx) ≠ 0 ∧
                sender (tx_env tx) ≠ market_address d) txs →
  active (get_listing (run w0 txs) l) = true →
  this (market (run w0 txs)) = market_address d ∧
  TicketNFT._ownerOf (nft (run w0 txs))
    (tokenId (get_listing (run w0 txs) l)) = market_address d ∧
  TicketNFT.market (nft (run w0 txs)) = market_address d ∧
  ∀ l', active (get_listing (run w0 txs) l') = true →
        tokenId (get_listing (run w0 txs) l') =
        tokenId (get_listing (run w0 txs) l) → l' = l.
Proof.
  intros Hd Hm Hext Hact.
  assert (this (market w0) = market_address d) as Hthis.
  { apply deploy_inv in Hd. by subst w0. }
  assert (inv_escrow (run w0 txs)) as [Hz He _ Hu].
  { apply inv_escrow_run; [by eapply inv_escrow_deploy|].
    eapply Forall_impl; [exact Hext|]. unfold external. by rewrite Hthis. }
  assert (this (market (run w0 txs)) = market_address d) as Hthis'.
  { rewrite <- Hthis. clear. revert w0.
    induction txs as [|tx txs IH]; intros w0; simpl; [done|].
    by rewrite IH, this_step. }
  destruct (He l Hact) as [Ho Hw]. rewrite Hthis' in Ho, Hw.
  split; [done|]. split; [done|]. split; [done|].
  intros l' Hact' Htok. by apply (Hu l l').
Qed.

Lemma listed_tickets_are_escrowed_witness :
  deploy Scenario.d0 = Some Scenario.ledger0 ∧
  active (get_listing (run Scenario.ledger0 Scenario.listed) 0) = true ∧
  TicketNFT._ownerOf (nft (run Scenario.ledger0 Scenario.listed))
    (tokenId (get_listing (run Scenario.ledger0 Scenario.listed) 0)) = 103.
Proof.
  assert (Forall (λ tx, sender (tx_env tx) ≠ 0 ∧
                        sender (tx_env tx) ≠ market_address Scenario.d0)
            Scenario.listed) as Hext.
  { unfold Scenario.listed, Scenario.sale, Scenario.first_sale. simpl.
    repeat first
      [ apply Forall_nil_2
      | apply Forall_cons_2; [split; by vm_compute | ] ]. }
  assert (active (get_listing (run Scenario.ledger0 Scenario.listed) 0) = true)
    as Hact by (vm_compute; reflexivity).
  destruct (listed_tickets_are_escrowed Scenario.d0 Scenario.ledger0
              Scenario.listed 0 Scenario.deployed ltac:(by vm_compute)
              Hext Hact) as (_ & Ho & _).
  split; [exact Scenario.deployed|]. split; [exact Hact|]. exact Ho.
Defined.

(** Every listing ever created names a minted ticket of an existing
    event and asks a positive price within the resale cap. *)
Record inv_prices (w : Ledger) : Prop := {
  listed_minted : ∀ l, 0 <= l < nextListingId (market w) →
    minted_ticket (nft w) (tokenId (get_listing w l));
  listed_event : ∀ l, 0 <= l < nextListingId (market w) →
    EventRegistry.organizer
      (getEvent w (TicketNFT.get_ticketEvent (nft w)
                     (tokenId (get_listing w l)))) ≠ 0;
  listed_price : ∀ l, 0 <= l < nextListingId (market w) →
    0 < priceWei (get_listing w l) <=
      resale_cap w (tokenId (get_listing w l))
}.

Lemma inv_prices_step w tx :
  inv_events w → inv_tickets (nft w) → inv_listings w →
  inv_prices w → inv_prices (step w tx).
Proof.
  intros [Hn He _ _ _ _ _] [Htn Hu Hm] [Hln Hlf] [Hmin Hev Hpr].
  unfold resale_cap, minted_ticket in *. getters.
  assert (∀ e, EventRegistry.organizer
                 (sload (EventRegistry.events (registry w)) e) ≠ 0 →
               e ≠ EventRegistry.nextEventId (registry w)) as Hold.
  { intros e Hex ->. apply Hex, He. lia. }
  step_cases w tx; try (by split); bprop.
  all: split; unfold resale_cap, minted_ticket; getters; mproj; intros l Hl.
  all: repeat rewrite sload_insert in *; repeat case_decide; mproj; subst;
       try lia.
  all: try (pose proof (Hmin l ltac:(lia)); pose proof (Hev l ltac:(lia));
            pose proof (Hpr l ltac:(lia))).
  all: try done; try lia; try congruence.
  all: try (exfalso;
            match goal with
            | H1 : EventRegistry.organizer (sload _ ?e) ≠ 0,
              H : EventRegistry.nextEventId _ = ?e |- _ =>
                apply (Hold e H1); symmetry; exact H
            end).
  match goal with
  | Hv : sload (TicketNFT.ticketState _) ?t = TicketNFT.Valid |- _ =>
      destruct (decide (1 <= t <= TicketNFT._nextTokenId (nft w)));
        [done | rewrite Hu in Hv by done; discriminate]
  end.
Qed.

Lemma inv_prices_reachable w : reachable w → inv_prices w.
Proof.
  intros Hr.
  cut (inv_events w ∧ inv_tickets (nft w) ∧ inv_listings w ∧ inv_prices w);
    [by intros (_ & _ & _ & ?)|].
  revert w Hr.
  apply (reachable_invariant
    (λ w, inv_events w ∧ inv_tickets (nft w) ∧ inv_listings w ∧ inv_prices w)).
  - intros d w0 Hd.
    split; [by eapply inv_events_deploy|].
    split; [by eapply inv_tickets_deploy|].
    split; [by eapply inv_listings_deploy|].
    apply deploy_inv in Hd. subst w0. split; getters; mproj; simpl; intros; lia.
  - intros w tx (H1 & H2 & H3 & H4).
    split; [by apply inv_events_step|].
    split; [by apply inv_tickets_step|].
    split; [by apply inv_listings_step|]. by apply inv_prices_step.
Qed.

(** X11. Every listing ever created in a reachable ledger, active or
    closed, asks a positive price that is at most the resale cap of its
    ticket, and names a minted ticket of an existing event. *)
Theorem listing_prices_within_cap w l :
  reachable w → 0 <= l < nextListingId (market w) →
  0 < priceWei (get_listing w l) <= resale_cap w (tokenId (get_listing w l)) ∧
  minted_ticket (nft w) (tokenId (get_listing w l)) ∧
  EventRegistry.organizer
    (getEvent w (TicketNFT.get_ticketEvent (nft w)
                   (tokenId (get_listing w l)))) ≠ 0.
Proof.
  intros Hr Hl. destruct (inv_prices_reachable w Hr) as [Hm He Hp]. auto.
Qed.

Lemma listing_prices_within_cap_witness :
  reachable (run Scenario.ledger0 Scenario.resold) ∧
  0 <= 0 < nextListingId (market (run Scenario.ledger0 Scenario.resold)) ∧
  0 < priceWei (get_listing (run Scenario.ledger0 Scenario.resold) 0)
    <= resale_cap (run Scenario.ledger0 Scenario.resold)
         (tokenId (get_listing (run Scenario.ledger0 Scenario.resold) 0)).
Proof.
  assert (0 <= 0 < nextListingId (market (run Scenario.ledger0 Scenario.resold)))
    as Hl by (split; by vm_compute).
  split; [apply Scenario.scenario_reachable|]. split; [exact Hl|].
  exact (proj1 (listing_prices_within_cap _ 0
                  (Scenario.scenario_reachable Scenario.resold) Hl)).
Defined.

(** X12. A successful [listForResale] takes the ticket from the caller,
    its owner, into the market's hands; a successful [buyFromResale]
    takes the listed ticket from the market to the caller and keeps the
    listing's seller, price and ticket.  Neither changes the owner of
    another ticket, the state or the event of any ticket, another
    listing, or the registry. *)
Theorem resale_moves_ownership env w :
  (∀ t p w' tr, listForResale env t p w = Ok tt w' tr →
     TicketNFT._ownerOf (nft w) t = sender env ∧
     TicketNFT._ownerOf (nft w') t = this (market w) ∧
     (∀ t', t' ≠ t → TicketNFT._ownerOf (nft w') t' = TicketNFT._ownerOf (nft w) t') ∧
     (∀ t', TicketNFT.get_ticketState (nft w') t' = TicketNFT.get_ticketState (nft w) t' ∧
            TicketNFT.get_ticketEvent (nft w') t' = TicketNFT.get_ticketEvent (nft w) t') ∧
     (∀ l, l ≠ nextListingId (market w) → get_listing w' l = get_listing w l) ∧
     registry w' = registry w) ∧
  (∀ l w' tr, buyFromResale env l w = Ok tt w' tr →
     let t := tokenId (get_listing w l) in
     TicketNFT._ownerOf (nft w) t = this (market w) ∧
     TicketNFT._ownerOf (nft w') t = sender env ∧
     (∀ t', t' ≠ t → TicketNFT._ownerOf (nft w') t' = TicketNFT._ownerOf (nft w) t') ∧
     (∀ t', TicketNFT.get_ticketState (nft w') t' = TicketNFT.get_ticketState (nft w) t' ∧
            TicketNFT.get_ticketEvent (nft w') t' = TicketNFT.get_ticketEvent (nft w) t') ∧
     (∀ l', l' ≠ l → get_listing w' l' = get_listing w l') ∧
     seller (get_listing w' l) = seller (get_listing w l) ∧
     priceWei (get_listing w' l) = priceWei (get_listing w l) ∧
     tokenId (get_listing w' l) = t ∧
     registry w' = registry w).
Proof.
  split.
  - intros t p w' tr H. exec H; bprop; sload_cases.
    all: repeat split; try done; intros; by rewrite sload_insert_ne.
  - intros l w' tr H. cbv zeta. exec H; bprop; sload_cases.
    all: repeat split; try done; intros; by rewrite sload_insert_ne.
Qed.

(** X13. Once a ticket of a reachable ledger is [Used], every later
    [listForResale] of it reverts without effect, and when attempted by
    the ticket's owner the revert is "Ticket no valido". *)
Theorem used_ticket_cannot_be_listed w t txs env p :
  reachable w →
  TicketNFT.get_ticketState (nft w) t = TicketNFT.Used →
  (∃ err, listForResale env t p (run w txs) = Revert err (run w txs) []) ∧
  (TicketNFT._ownerOf (nft (run w txs)) t = sender env →
   listForResale env t p (run w txs) =
     Revert (Require "Ticket no valido") (run w txs) []).
Proof.
  intros Hr Hu.
  pose proof (ticket_state_run txs w t (inv_tickets_reachable w Hr)
                (or_introl Hu)) as Hst.
  rewrite Hu in Hst.
  assert (minted_ticket (nft (run w txs)) t) as Hin.
  { pose proof (inv_tickets_reachable _ (reachable_run w txs Hr)) as [_ Hun _].
    destruct (decide (minted_ticket (nft (run w txs)) t)) as [|Hout]; [done|].
    apply Hun in Hout. congruence. }
  pose proof (inv_tickets_reachable _ (reachable_run w txs Hr)) as [_ _ Hm].
  destruct (Hm t Hin) as [_ Hown].
  destruct (run w txs) as [r n m]. revert Hst Hown. getters. mproj.
  intros Hst Hown. split.
  - mred; mproj.
    repeat (match goal with
            | |- context [if ?c then _ else _] => destruct c eqn:?
            end; mproj; bprop; try done; try congruence;
            try (eexists; reflexivity)).
  - intros Ho. mflow.
Qed.

Lemma used_ticket_cannot_be_listed_witness :
  reachable (run Scenario.ledger0 Scenario.validated) ∧
  TicketNFT.get_ticketState (nft (run Scenario.ledger0 Scenario.validated)) 2
    = TicketNFT.Used ∧
  listForResale (tx_env (Scenario.call 21 0 13 (ListForResale 2 100))) 2 100
    (run (run Scenario.ledger0 Scenario.validated)
       [Scenario.call 10 0 12 (SetEventActive 0 true)]) =
  Revert (Require "Ticket no valido")
    (run (run Scenario.ledger0 Scenario.validated)
       [Scenario.call 10 0 12 (SetEventActive 0 true)]) [].
Proof.
  assert (TicketNFT.get_ticketState
            (nft (run Scenario.ledger0 Scenario.validated)) 2 = TicketNFT.Used)
    as Hu by (vm_compute; reflexivity).
  split; [apply Scenario.scenario_reachable|]. split; [exact Hu|].
  apply (proj2 (used_ticket_cannot_be_listed
                  (run Scenario.ledger0 Scenario.validated) 2
                  [Scenario.call 10 0 12 (SetEventActive 0 true)]
                  (tx_env (Scenario.call 21 0 13 (ListForResale 2 100))) 100
                  (Scenario.scenario_reachable Scenario.validated) Hu)).
  vm_compute. reflexivity.
Defined.

(** X14. When an event is inactive or its date is not after the block
    timestamp, every primary purchase for it, every listing of one of
    its tickets and every purchase of a listing of one of its tickets
    reverts without effect. *)
Theorem sales_closed_when_inactive_or_past env w e :
  EventRegistry.active (getEvent w e) = false ∨
  EventRegistry.date (getEvent w e) <= now env →
  (∃ err, buyPrimary env e w = Revert err w []) ∧
  (∀ t p, TicketNFT.get_ticketEvent (nft w) t = e →
     ∃ err, listForResale env t p w = Revert err w []) ∧
  (∀ l, TicketNFT.get_ticketEvent (nft w) (tokenId (get_listing w l)) = e →
     ∃ err, buyFromResale env l w = Revert err w []).
Proof.
  intros Hclosed. split; [|split].
  - apply buyPrimary_rejects. destruct Hclosed; auto.
  - intros t p <-. destruct w as [r n m]. revert Hclosed. getters. mproj.
    intros Hclosed. mred; mproj.
    repeat (match goal with
            | |- context [if ?c then _ else _] => destruct c eqn:?
            end; mproj; try (eexists; reflexivity)).
    all: exfalso; bprop; destruct Hclosed; try congruence; lia.
  - intros l <-. revert Hclosed. getters. intros Hclosed. mred; mproj.
    repeat (match goal with
            | |- context [if ?c then _ else _] => destruct c eqn:?
            end; mproj; try (eexists; reflexivity)).
    all: exfalso; bprop; destruct Hclosed; try congruence; lia.
Qed.

Lemma sales_closed_when_inactive_or_past_witness :
  EventRegistry.active
    (getEvent (run (run Scenario.ledger0 Scenario.first_sale)
                 [Scenario.call 10 0 6 (SetEventActive 0 false)]) 0) = false ∧
  ∃ err,
    buyPrimary (tx_env (Scenario.call 21 100 7 (BuyPrimary 0))) 0
      (run (run Scenario.ledger0 Scenario.first_sale)
         [Scenario.call 10 0 6 (SetEventActive 0 false)]) =
    Revert err
      (run (run Scenario.ledger0 Scenario.first_sale)
         [Scenario.call 10 0 6 (SetEventActive 0 false)]) [].
Proof.
  assert (EventRegistry.active
    (getEvent (run (run Scenario.ledger0 Scenario.first_sale)
                 [Scenario.call 10 0 6 (SetEventActive 0 false)]) 0) = false)
    as Hoff by (vm_compute; reflexivity).
  split; [exact Hoff|].
  exact (proj1 (sales_closed_when_inactive_or_past
                  (tx_env (Scenario.call 21 100 7 (BuyPrimary 0))) _ 0
                  (or_introl Hoff))).
Defined.

(** X15. The counters only grow: no sequence of transactions decreases
    [nextEventId], the token's [_nextTokenId], [nextListingId], the
    minted count of an event or the [bought] counter of a wallet. *)
Theorem counters_never_decrease w txs :
  EventRegistry.nextEventId (registry w)
    <= EventRegistry.nextEventId (registry (run w txs)) ∧
  TicketNFT._nextTokenId (nft w) <= TicketNFT._nextTokenId (nft (run w txs)) ∧
  nextListingId (market w) <= nextListingId (market (run w txs)) ∧
  (∀ e, get_minted w e <= get_minted (run w txs) e) ∧
  (∀ e a, bought (get_buyerState w e a) <= bought (get_buyerState (run w txs) e a)).
Proof.
  revert w. induction txs as [|tx txs IH]; intros w; simpl.
  { repeat split; intros; lia. }
  assert (EventRegistry.nextEventId (registry w)
            <= EventRegistry.nextEventId (registry (step w tx)) ∧
          TicketNFT._nextTokenId (nft w) <= TicketNFT._nextTokenId (nft (step w tx)) ∧
          nextListingId (market w) <= nextListingId (market (step w tx)) ∧
          (∀ e, get_minted w e <= get_minted (step w tx) e) ∧
          (∀ e a, bought (get_buyerState w e a)
                  <= bought (get_buyerState (step w tx) e a)))
    as (H1 & H2 & H3 & H4 & H5).
  { getters. step_cases w tx; try (repeat split; intros; lia); bprop.
    all: repeat split; intros; sload_cases; mproj; lia. }
  destruct (IH (step w tx)) as (I1 & I2 & I3 & I4 & I5).
  repeat split; intros; try lia.
  - specialize (H4 e). specialize (I4 e). lia.
  - specialize (H5 e a). specialize (I5 e a). lia.
Qed.


Lemma buyPrimary_owner env e w w' tr :
  buyPrimary env e w = Ok tt w' tr →
  TicketNFT._ownerOf (nft w') (TicketNFT._nextTokenId (nft w) + 1) = sender env.
Proof. intros H. exec H; bprop; sload_cases; mproj. all: done. Qed.

Lemma buyFromResale_owner env l w w' tr :
  buyFromResale env l w = Ok tt w' tr →
  TicketNFT._ownerOf (nft w') (tokenId (get_listing w l)) = sender env.
Proof. intros H. exec H; bprop; sload_cases; mproj. all: done. Qed.


Ltac in_trace H :=
  repeat (apply elem_of_cons in H as [H|H];
          [first [discriminate H | injection H as ? ?; subst] |]);
  try (by apply elem_of_nil in H).

(** X17. Ether leaves the market only in a successful [buyFromResale]:
    if the trace of a successful transaction holds a transfer of ether,
    the call is [buyFromResale] of a listing, the payee is that listing's
    seller and the amount is the listing's price, which is the amount
    sent with the call. *)
Theorem ether_leaves_only_on_resale w tx tr to amount :
  receipt w tx = Success tt tr →
  SendEther to amount ∈ tr →
  ∃ l, tx_call tx = BuyFromResale l ∧
       to = seller (get_listing w l) ∧
       amount = priceWei (get_listing w l) ∧
       amount = value (tx_env tx).
Proof.
  destruct tx as [env c]. unfold receipt, transact. mproj.
  destruct (dispatch env c w) as [[] w' tr'|] eqn:H; [|done].
  intros [= <-] Hin. destruct c; exec H; in_trace Hin.
  all: bprop; eexists; repeat split; congruence.
Qed.

Lemma ether_leaves_only_on_resale_witness :
  receipt (run Scenario.ledger0 Scenario.listed)
    (Scenario.call 23 125 9 (BuyFromResale 0)) =
  Success tt
    [SStore "listings.active" [0]; SendEther 20 125; SStore "_owners" [1];
     Emit "Transfer" [AInt 103; AInt 23; AInt 1];
     Emit "ResaleTicketBought" [AInt 0; AInt 1; AInt 23; AInt 125]] ∧
  ∃ l, tx_call (Scenario.call 23 125 9 (BuyFromResale 0)) = BuyFromResale l ∧
       20 = seller (get_listing (run Scenario.ledger0 Scenario.listed) l) ∧
       125 = priceWei (get_listing (run Scenario.ledger0 Scenario.listed) l) ∧
       125 = value (tx_env (Scenario.call 23 125 9 (BuyFromResale 0))).
Proof.
  assert (receipt (run Scenario.ledger0 Scenario.listed)
            (Scenario.call 23 125 9 (BuyFromResale 0)) =
          Success tt
            [SStore "listings.active" [0]; SendEther 20 125;
             SStore "_owners" [1];
             Emit "Transfer" [AInt 103; AInt 23; AInt 1];
             Emit "ResaleTicketBought" [AInt 0; AInt 1; AInt 23; AInt 125]])
    as Hrec by (vm_compute; reflexivity).
  split; [exact Hrec|].
  apply (ether_leaves_only_on_resale _ _ _ 20 125 Hrec).
  apply elem_of_cons. right. apply elem_of_cons. by left.
Defined.

(** While only the market contract can be the token's market, an id not
    yet minted has no owner; a wallet never bought more than was minted;
    [lastBuyTs] fits 64 bits. *)
Record inv_supply (w : Ledger) : Prop := {
  unminted_unowned :
    TicketNFT.market (nft w) = 0 ∨ TicketNFT.market (nft w) = this (market w) →
    ∀ t, ¬ minted_ticket (nft w) t → TicketNFT._ownerOf (nft w) t = 0;
  bought_le_minted : ∀ e a, bought (get_buyerState w e a) <= get_minted w e;
  lastBuy_range : ∀ e a, 0 <= lastBuyTs (get_buyerState w e a) <= uint_max 64
}.

Lemma cast_uint_range bits x : 0 < bits → 0 <= cast_uint bits x <= uint_max bits.
Proof.
  intros Hb. unfold cast_uint, uint_max.
  pose proof (Z.mod_pos_bound x (2 ^ bits) ltac:(apply Z.pow_pos_nonneg; lia)).
  lia.
Qed.

Lemma inv_supply_step w tx :
  this (market w) ≠ 0 → external w tx → inv_tickets (nft w) →
  inv_supply w → inv_supply (step w tx).
Proof.
  intros Hz [Hs0 Hst] [Htn _ _] [Hun Hbm Hlb]. unfold minted_ticket in *. getters.
  pose proof (cast_uint_range 64 (now (tx_env tx)) ltac:(lia)) as Hcast.
  step_cases w tx; try (by split); bprop.
  all: split; unfold minted_ticket; getters; mproj; intros.
  all: repeat rewrite sload_insert in *; repeat case_decide; mproj;
       simplify_eq; try lia; try congruence.
  all: try (apply Hun; [tauto | lia]).
  all: try (match goal with |- _ <= _ => specialize (Hbm e a); lia end).
  all: try done.
  all: try (pose proof (Hbm e (sender env)); lia).
  all: exfalso;
       match goal with
       | Ho : sload (TicketNFT._owners _) ?t = _ |- _ =>
           rewrite Hun in Ho by (tauto || lia); congruence
       end.
Qed.

Lemma inv_supply_deploy d w0 : deploy d = Some w0 → inv_supply w0.
Proof.
  intros ->%deploy_inv. split; getters; mproj; simpl; intros;
    rewrite ?sload_empty; simpl; try done.
Qed.

Lemma this_run txs : ∀ w, this (market (run w txs)) = this (market w).
Proof.
  induction txs as [|tx txs IH]; intros w; simpl; [done|].
  by rewrite IH, this_step.
Qed.

Lemma inv_supply_run txs : ∀ w,
  this (market w) ≠ 0 → Forall (external w) txs → inv_tickets (nft w) →
  inv_supply w → inv_supply (run w txs).
Proof.
  induction txs as [|tx txs IH]; intros w Hz Hext Htk Hinv; simpl; [done|].
  apply Forall_cons in Hext as [Hx Hext].
  apply IH.
  - by rewrite this_step.
  - eapply Forall_impl; [exact Hext|]. unfold external. intros tx'.
    by rewrite this_step.
  - by apply inv_tickets_step.
  - by apply inv_supply_step.
Qed.

(** X18. A primary purchase that meets the checks goes through.  After
    any transactions by accounts other than zero and the market, with the
    market assigned as the token's market: if the event exists, is active
    and upcoming, the amount sent is the base price, tickets remain, the
    per-wallet limit and the cooldown (when set) are met, the buyer
    accepts the token and the counters have room, then [buyPrimary]
    returns, the buyer owns the new ticket and the minted count grows by
    one. *)
Theorem primary_sale_succeeds d w0 txs env e :
  deploy d = Some w0 → market_address d ≠ 0 →
  Forall (λ tx, sender (tx_env tx) ≠ 0 ∧
                sender (tx_env tx) ≠ market_address d) txs →
  let w := run w0 txs in
  let evt := getEvent w e in
  let st := get_buyerState w e (sender env) in
  TicketNFT.market (nft w) = market_address d →
  sender env ≠ 0 → receiver_ok env = true →
  0 < now env <= uint_max 64 →
  EventRegistry.organizer evt ≠ 0 →
  EventRegistry.active evt = true →
  now env < EventRegistry.date evt →
  value env = EventRegistry.basePriceWei evt →
  get_minted w e < EventRegistry.totalTickets evt →
  (0 < EventRegistry.maxTicketsPerWallet evt →
   bought st + 1 <= EventRegistry.maxTicketsPerWallet evt) →
  (0 < EventRegistry.walletCooldown evt → lastBuyTs st ≠ 0 →
   lastBuyTs st + EventRegistry.walletCooldown evt <= now env) →
  EventRegistry.totalTickets evt <= uint_max 256 →
  TicketNFT._nextTokenId (nft w) + 1 <= uint_max 256 →
  ∃ w' tr, buyPrimary env e w = Ok tt w' tr ∧
           TicketNFT._ownerOf (nft w') (TicketNFT._nextTokenId (nft w) + 1)
             = sender env ∧
           get_minted w' e = get_minted w e + 1.
Proof.
  intros Hd Hm Hext. cbv zeta.
  intros Hwired Hs Hrecv Hnow Hex Hact Hdate Hval Hcap Hlim Hcool Htot Hnext.
  assert (this (market w0) = market_address d) as Hthis.
  { apply deploy_inv in Hd. by subst w0. }
  assert (reachable w0) as Hr0 by (exists d, w0, []; done).
  assert (inv_supply (run w0 txs)) as [Hun Hbm Hlb].
  { apply inv_supply_run.
    - by rewrite Hthis.
    - eapply Forall_impl; [exact Hext|]. unfold external. by rewrite Hthis.
    - by apply inv_tickets_reachable.
    - by eapply inv_supply_deploy. }
  pose proof (inv_events_reachable _ (reachable_run w0 txs Hr0)) as Hev.
  pose proof (inv_tickets_reachable _ (reachable_run w0 txs Hr0)) as [Htn _ _].
  pose proof (this_run txs w0) as Hthis'. rewrite Hthis in Hthis'.
  assert (TicketNFT._ownerOf (nft (run w0 txs))
            (TicketNFT._nextTokenId (nft (run w0 txs)) + 1) = 0) as Hfree.
  { apply Hun; [right; congruence | unfold minted_ticket; lia]. }
  pose proof (Hbm e (sender env)) as Hb1.
  pose proof (Hlb e (sender env)) as Hl1.
  pose proof (bought_nonneg _ Hev e (sender env)) as Hb0.
  pose proof (minted_capacity _ Hev e) as Hm0.
  assert (∃ w' tr, buyPrimary env e (run w0 txs) = Ok tt w' tr) as (w' & tr & Hok).
  { revert Hwired Hex Hact Hdate Hval Hcap Hlim Hcool Htot Hnext Hfree Hb1 Hl1
      Hb0 Hm0 Hthis' Htn.
    generalize (run w0 txs). intros w. getters. intros. mred; mproj.
    repeat (match goal with
            | |- context [if ?c then _ else _] => destruct c eqn:?
            end; mproj; bprop; try done; try lia; try congruence; eauto).
    all: try (exfalso; intuition lia). }
  exists w', tr. split; [done|].
  pose proof (buyPrimary_owner env e _ w' tr Hok) as Ho.
  destruct (buyPrimary_ok env e _ w' tr Hok) as (_ & _ & _ & _ & _ & _ & _ & Hmint & _).
  done.
Qed.

Lemma primary_sale_succeeds_witness :
  deploy Scenario.d0 = Some Scenario.ledger0 ∧
  ∃ w' tr,
    buyPrimary (tx_env (Scenario.call 21 100 7 (BuyPrimary 0))) 0
      (run Scenario.ledger0 Scenario.first_sale) = Ok tt w' tr ∧
    TicketNFT._ownerOf (nft w')
      (TicketNFT._nextTokenId (nft (run Scenario.ledger0 Scenario.first_sale)) + 1)
      = sender (tx_env (Scenario.call 21 100 7 (BuyPrimary 0))) ∧
    get_minted w' 0 = get_minted (run Scenario.ledger0 Scenario.first_sale) 0 + 1.
Proof.
  split; [exact Scenario.deployed|].
  apply (primary_sale_succeeds Scenario.d0 Scenario.ledger0 Scenario.first_sale
           (tx_env (Scenario.call 21 100 7 (BuyPrimary 0))) 0 Scenario.deployed).
  - by vm_compute.
  - unfold Scenario.first_sale.
    repeat first [apply Forall_nil_2 | apply Forall_cons_2; [split; by vm_compute|]].
  - vm_compute; reflexivity.
  - by vm_compute.
  - vm_compute; reflexivity.
  - split; [reflexivity | by vm_compute].
  - by vm_compute.
  - vm_compute; reflexivity.
  - vm_compute; reflexivity.
  - vm_compute; reflexivity.
  - vm_compute; reflexivity.
  - intros _. by vm_compute.
  - intros H. exfalso. revert H. by vm_compute.
  - by vm_compute.
  - by vm_compute.
Defined.

(** X19. An authorised validation goes through.  In a reachable ledger
    whose token has the market assigned, for a minted ticket that is
    [Valid] and whose event exists, a call of [markTicketUsed] without
    ether by the organizer, a validator of the event or the market's
    owner returns; it writes the state, emits [TicketStateChanged] and
    [TicketUsed], leaves the ticket [Used], and changes no other state,
    no owner, nothing in the registry or the market. *)
Theorem authorized_validation_succeeds w env t :
  reachable w → value env = 0 →
  TicketNFT.market (nft w) = this (market w) →
  minted_ticket (nft w) t →
  TicketNFT.get_ticketState (nft w) t = TicketNFT.Valid →
  EventRegistry.organizer
    (getEvent w (TicketNFT.get_ticketEvent (nft w) t)) ≠ 0 →
  may_validate w (sender env) t →
  ∃ w', markTicketUsed env t w =
          Ok tt w' [SStore "ticketState" [t];
                    Emit "TicketStateChanged" [AInt t; AInt 2];
                    Emit "TicketUsed"
                      [AInt t; AInt (TicketNFT.get_ticketEvent (nft w) t);
                       AInt (sender env)]] ∧
        TicketNFT.get_ticketState (nft w') t = TicketNFT.Used ∧
        (∀ t', t' ≠ t → TicketNFT.get_ticketState (nft w') t' =
                         TicketNFT.get_ticketState (nft w) t') ∧
        (∀ t', TicketNFT._ownerOf (nft w') t' = TicketNFT._ownerOf (nft w) t') ∧
        registry w' = registry w ∧ market w' = market w.
Proof.
  intros Hr _ Hwired Hin Hv Hex Hmay.
  destruct (ticket_minted _ (inv_tickets_reachable w Hr) t Hin) as [_ Hown].
  revert Hwired Hv Hex Hmay Hown. unfold may_validate. getters.
  intros Hwired Hv Hex Hmay Hown.
  assert ((sender env =?
             EventRegistry.organizer
               (sload (EventRegistry.events (registry w))
                  (sload (TicketNFT.ticketEvent (nft w)) t)))
          || sload (EventRegistry._validators (registry w))
               (sload (TicketNFT.ticketEvent (nft w)) t, sender env)
          || (sender env =? owner (market w)) = true) as Hb.
  { destruct Hmay as [Hm|[Hm|Hm]].
    - apply Z.eqb_eq in Hm. by rewrite Hm.
    - rewrite Hm. by rewrite orb_true_r.
    - apply Z.eqb_eq in Hm. rewrite Hm. by rewrite orb_true_r. }
  mred; mproj.
  repeat (match goal with
          | |- context [if ?c then _ else _] => destruct c eqn:?
          end; mproj; bprop; try done; try congruence).
  eexists. split; [reflexivity|]. getters. mproj.
  rewrite sload_insert_eq. repeat split; try done.
  intros t' Hne. by rewrite sload_insert_ne.
Qed.

Lemma authorized_validation_succeeds_witness :
  reachable (run Scenario.ledger0 Scenario.sale) ∧
  may_validate (run Scenario.ledger0 Scenario.sale) 10 2 ∧
  ∃ w', markTicketUsed (tx_env (Scenario.call 10 0 2000 (MarkTicketUsed 2))) 2
          (run Scenario.ledger0 Scenario.sale) =
        Ok tt w' [SStore "ticketState" [2];
                  Emit "TicketStateChanged" [AInt 2; AInt 2];
                  Emit "TicketUsed"
                    [AInt 2;
                     AInt (TicketNFT.get_ticketEvent
                             (nft (run Scenario.ledger0 Scenario.sale)) 2);
                     AInt 10]] ∧
        TicketNFT.get_ticketState (nft w') 2 = TicketNFT.Used.
Proof.
  assert (may_validate (run Scenario.ledger0 Scenario.sale) 10 2) as Hmay.
  { left. vm_compute. reflexivity. }
  assert (minted_ticket (nft (run Scenario.ledger0 Scenario.sale)) 2) as Hm.
  { unfold minted_ticket.
    replace (TicketNFT._nextTokenId (nft (run Scenario.ledger0 Scenario.sale)))
      with 2 by (vm_compute; reflexivity).
    lia. }
  split; [apply Scenario.scenario_reachable|]. split; [exact Hmay|].
  destruct (authorized_validation_succeeds
              (run Scenario.ledger0 Scenario.sale)
              (tx_env (Scenario.call 10 0 2000 (MarkTicketUsed 2))) 2
              (Scenario.scenario_reachable Scenario.sale) eq_refl
              ltac:(vm_compute; reflexivity) Hm
              ltac:(vm_compute; reflexivity) ltac:(by vm_compute) Hmay)
    as (w' & Hok & Hused & _).
  exists w'. split; [exact Hok | exact Hused].
Defined.

(** X20. An active listing can be bought.  After any transactions by
    accounts other than zero and the market: for an active listing whose
    event is active and upcoming, [buyFromResale] with the listing's
    price, by a buyer other than zero and with a seller that accepts the
    payment, returns; the buyer owns the ticket, the listing is closed and
    the seller was sent the price. *)
Theorem active_listing_can_be_bought d w0 txs env l :
  deploy d = Some w0 → market_address d ≠ 0 →
  Forall (λ tx, sender (tx_env tx) ≠ 0 ∧
                sender (tx_env tx) ≠ market_address d) txs →
  let w := run w0 txs in
  let lst := get_listing w l in
  let evt := getEvent w (TicketNFT.get_ticketEvent (nft w) (tokenId lst)) in
  active lst = true →
  value env = priceWei lst →
  EventRegistry.active evt = true →
  now env < EventRegistry.date evt →
  sender env ≠ 0 → payee_ok env = true →
  ∃ w' tr, buyFromResale env l w = Ok tt w' tr ∧
           TicketNFT._ownerOf (nft w') (tokenId lst) = sender env ∧
           active (get_listing w' l) = false ∧
           SendEther (seller lst) (priceWei lst) ∈ tr.
Proof.
  intros Hd Hm Hext. cbv zeta. intros Hact Hval Hon Hdate Hs Hpay.
  assert (this (market w0) = market_address d) as Hthis.
  { apply deploy_inv in Hd. by subst w0. }
  assert (reachable w0) as Hr0 by (exists d, w0, []; done).
  assert (inv_escrow (run w0 txs)) as [Hz He Hsel _].
  { apply inv_escrow_run; [by eapply inv_escrow_deploy|].
    eapply Forall_impl; [exact Hext|]. unfold external. by rewrite Hthis. }
  destruct (He l Hact) as [Hown Hwired]. pose proof (Hsel l Hact) as Hseller.
  pose proof (inv_listings_reachable _ (reachable_run w0 txs Hr0)) as [_ Hfresh].
  assert (0 <= l < nextListingId (market (run w0 txs))) as Hl.
  { destruct (decide (0 <= l < nextListingId (market (run w0 txs)))); [done|].
    apply Hfresh in n. congruence. }
  pose proof (listed_event _ (inv_prices_reachable _ (reachable_run w0 txs Hr0)) l Hl)
    as Hex.
  assert (∃ w' tr, buyFromResale env l (run w0 txs) = Ok tt w' tr)
    as (w' & tr & Hok).
  { revert Hact Hval Hon Hdate Hown Hwired Hseller Hex Hz.
    generalize (run w0 txs). intros w. getters. intros. mred; mproj.
    repeat (match goal with
            | |- context [if ?c then _ else _] => destruct c eqn:?
            end; mproj; bprop; try done; try lia; try congruence; eauto). }
  exists w', tr. split; [done|].
  pose proof (buyFromResale_owner env l _ w' tr Hok) as Hnew.
  destruct (buyFromResale_trace env l _ w' tr Hok) as (Htr & _ & Hoff & _).
  split; [done|]. split; [done|].
  rewrite Htr, <- Hval. apply elem_of_cons. right. apply elem_of_cons. by left.
Qed.

Lemma active_listing_can_be_bought_witness :
  deploy Scenario.d0 = Some Scenario.ledger0 ∧
  active (get_listing (run Scenario.ledger0 Scenario.listed) 0) = true ∧
  ∃ w' tr,
    buyFromResale (tx_env (Scenario.call 23 125 9 (BuyFromResale 0))) 0
      (run Scenario.ledger0 Scenario.listed) = Ok tt w' tr ∧
    TicketNFT._ownerOf (nft w')
      (tokenId (get_listing (run Scenario.ledger0 Scenario.listed) 0)) =
      sender (tx_env (Scenario.call 23 125 9 (BuyFromResale 0))).
Proof.
  assert (active (get_listing (run Scenario.ledger0 Scenario.listed) 0) = true)
    as Hact by (vm_compute; reflexivity).
  assert (Forall (λ tx, sender (tx_env tx) ≠ 0 ∧
                        sender (tx_env tx) ≠ market_address Scenario.d0)
            Scenario.listed) as Hext.
  { unfold Scenario.listed, Scenario.sale, Scenario.first_sale. simpl.
    repeat first
      [ apply Forall_nil_2
      | apply Forall_cons_2; [split; by vm_compute | ] ]. }
  split; [exact Scenario.deployed|]. split; [exact Hact|].
  destruct (active_listing_can_be_bought Scenario.d0 Scenario.ledger0
              Scenario.listed
              (tx_env (Scenario.call 23 125 9 (BuyFromResale 0))) 0
              Scenario.deployed ltac:(by vm_compute) Hext Hact
              ltac:(vm_compute; reflexivity) ltac:(vm_compute; reflexivity)
              ltac:(vm_compute; reflexivity) ltac:(by vm_compute) eq_refl)
    as (w' & tr & Hok & Hown & _).
  exists w', tr. split; [exact Hok | exact Hown].
Defined.

(** X21. A listing that meets the checks goes through.  With the market
    assigned as the token's market: the owner of a [Valid] ticket of an
    existing, active, upcoming event, calling [listForResale] without
    ether and with a positive price at most the cap, gets the listing
    created under the next listing id with the caller as seller, at the
    price asked and active, and the ticket passes to the market. *)
Theorem listing_succeeds env t p w :
  let evt := getEvent w (TicketNFT.get_ticketEvent (nft w) t) in
  value env = 0 →
  TicketNFT.market (nft w) = this (market w) → this (market w) ≠ 0 →
  TicketNFT._ownerOf (nft w) t = sender env → sender env ≠ 0 →
  TicketNFT.get_ticketState (nft w) t = TicketNFT.Valid →
  0 < p <= resale_cap w t →
  EventRegistry.organizer evt ≠ 0 → EventRegistry.active evt = true →
  now env < EventRegistry.date evt →
  in_uint 256 (EventRegistry.basePriceWei evt * EventRegistry.maxResaleFactor evt) →
  in_uint 256 (nextListingId (market w) + 1) →
  ∃ w', listForResale env t p w =
          Ok tt w' [SStore "_owners" [t];
                    Emit "Transfer" [AInt (sender env); AInt (this (market w)); AInt t];
                    SStore "nextListingId" []; SStore "listings" [nextListingId (market w)];
                    Emit "TicketListed"
                      [AInt (nextListingId (market w)); AInt t;
                       AInt (sender env); AInt p]] ∧
        TicketNFT._ownerOf (nft w') t = this (market w) ∧
        get_listing w' (nextListingId (market w)) =
          {| tokenId := t; seller := sender env; priceWei := p; active := true |}.
Proof.
  cbv zeta. unfold resale_cap, in_uint. getters.
  intros _ Hwired Hz Hown Hs Hv Hp Hex Hact Hdate Hprod Hnext.
  mred; mproj.
  repeat (match goal with
          | |- context [if ?c then _ else _] => destruct c eqn:?
          end; mproj; bprop; try done; try lia; try congruence).
  eexists. split; [by rewrite Hown|]. getters. mproj.
  by rewrite !sload_insert_eq.
Qed.

Lemma listing_succeeds_witness :
  ∃ w', listForResale (tx_env (Scenario.call 20 0 8 (ListForResale 1 125))) 1 125
          (run Scenario.ledger0 Scenario.sale) =
        Ok tt w'
          [SStore "_owners" [1];
           Emit "Transfer"
             [AInt (sender (tx_env (Scenario.call 20 0 8 (ListForResale 1 125))));
              AInt (this (market (run Scenario.ledger0 Scenario.sale))); AInt 1];
           SStore "nextListingId" [];
           SStore "listings"
             [nextListingId (market (run Scenario.ledger0 Scenario.sale))];
           Emit "TicketListed"
             [AInt (nextListingId (market (run Scenario.ledger0 Scenario.sale)));
              AInt 1;
              AInt (sender (tx_env (Scenario.call 20 0 8 (ListForResale 1 125))));
              AInt 125]] ∧
        TicketNFT._ownerOf (nft w') 1 =
          this (market (run Scenario.ledger0 Scenario.sale)).
Proof.
  destruct (listing_succeeds
              (tx_env (Scenario.call 20 0 8 (ListForResale 1 125))) 1 125
              (run Scenario.ledger0 Scenario.sale) eq_refl
              ltac:(vm_compute; reflexivity) ltac:(by vm_compute)
              ltac:(vm_compute; reflexivity) ltac:(by vm_compute)
              ltac:(vm_compute; reflexivity)
              ltac:(split; by vm_compute)
              ltac:(by vm_compute) ltac:(vm_compute; reflexivity)
              ltac:(vm_compute; reflexivity)
              ltac:(split; by vm_compute) ltac:(split; by vm_compute))
    as (w' & Hok & Hown & _).
  exists w'. split; [exact Hok | exact Hown].
Defined.
